(** * CEDA status bot: the editable-state core of [app.py]

    A shallow embedding of the state handling of
    [src/ceda_status_slack_bot/app.py]: the module-level variables
    [global_statuses], [original_statuses], [has_unsaved_changes] and
    [working_copies], and the handlers that read and write them.  Slack
    rendering (block construction, [views_update], chat messages) is kept
    only as far as it decides which handler runs next or what the caller
    is told, and for the input blocks of the service form, which come
    back in a submission. *)

From Stdlib Require Import ZArith Ascii String.
From stdpp Require Import base tactics option list sorting gmap strings pretty.

Local Open Scope Z_scope.
Local Open Scope stdpp_scope.

(** ** Records

    The remote document is a JSON list of objects with the string fields
    [status], [affectedServices], [summary], [date] and an [updates] array
    of objects with [date], [details] and an optional [url]; the handlers
    build dictionaries of exactly this shape.  A Python [str] is modelled
    as a [string] of code points below 256. *)

Record UpdateEntry := {
  u_date : string;
  u_details : string;
  u_url : option string   (* [None]: the dictionary has no ["url"] key *)
}.

Record ServiceRecord := {
  status : string;
  affectedServices : string;
  summary : string;
  date : string;
  updates : list UpdateEntry
}.

Global Instance UpdateEntry_eq_dec : EqDecision UpdateEntry.
Proof. solve_decision. Defined.

Global Instance ServiceRecord_eq_dec : EqDecision ServiceRecord.
Proof. solve_decision. Defined.

(** ** [json.dumps(..., sort_keys=True)]

    The encoder of the Python standard library with its defaults
    ([ensure_ascii=True], separators [", "] and [": "]), specialised to the
    record shape above.  With [sort_keys] the keys of a record come out as
    affectedServices, date, status, summary, updates and those of an update
    as date, details, url. *)

Module Json.

Definition dquote : ascii := "034"%char.
Definition backslash : ascii := "092"%char.

Definition hex_digit (n : N) : ascii :=
  if (n <? 10)%N then ascii_of_N (48 + n) else ascii_of_N (87 + n).

(** [ESCAPE_DCT] of [json.encoder] applied where the pattern
    [ESCAPE_ASCII] matches: a backslash, a double quote and every character
    outside the printable ASCII range (space to tilde) is replaced. *)
Definition escape_char (c : ascii) : string :=
  let n := N_of_ascii c in
  if (n =? 92)%N then String backslash (String backslash EmptyString)
  else if (n =? 34)%N then String backslash (String dquote EmptyString)
  else if (n =? 8)%N then String backslash "b"
  else if (n =? 12)%N then String backslash "f"
  else if (n =? 10)%N then String backslash "n"
  else if (n =? 13)%N then String backslash "r"
  else if (n =? 9)%N then String backslash "t"
  else if ((32 <=? n) && (n <=? 126))%N then String c EmptyString
  else String backslash
         (String "u" (String "0" (String "0"
            (String (hex_digit (n / 16)) (String (hex_digit (n mod 16)) EmptyString))))).

Fixpoint escape (s : string) : string :=
  match s with
  | EmptyString => EmptyString
  | String c s' => escape_char c +:+ escape s'
  end.

(** The reverse of [escape_char]: one escaped character read off the front
    of a text, with the rest of the text. *)
Definition unescape_head (s : string) : option (ascii * string) :=
  match s with
  | String c r =>
      if Ascii.eqb c backslash then
        match r with
        | String e r' =>
            if Ascii.eqb e "u" then
              match r' with
              | String _ (String _ (String h (String l r''))) =>
                  let v (d : ascii) : N :=
                    let n := N_of_ascii d in
                    if (n <? 58)%N then (n - 48)%N else (n - 87)%N in
                  Some (ascii_of_N (16 * v h + v l), r'')
              | _ => None
              end
            else if Ascii.eqb e "b" then Some ("008"%char, r')
            else if Ascii.eqb e "f" then Some ("012"%char, r')
            else if Ascii.eqb e "n" then Some ("010"%char, r')
            else if Ascii.eqb e "r" then Some ("013"%char, r')
            else if Ascii.eqb e "t" then Some ("009"%char, r')
            else Some (e, r')
        | EmptyString => None
        end
      else Some (c, r)
  | EmptyString => None
  end.

(** [py_encode_basestring_ascii]. *)
Definition dumps_str (s : string) : string :=
  String dquote (escape s +:+ String dquote EmptyString).

(** A key of an object followed by the key separator. *)
Definition key (k : string) : string :=
  String dquote (k +:+ String dquote ": ").

Definition dumps_update (u : UpdateEntry) : string :=
  "{" +:+ key "date" +:+ dumps_str (u_date u) +:+ ", " +:+
  key "details" +:+ dumps_str (u_details u) +:+
  match u_url u with
  | Some x => ", " +:+ key "url" +:+ dumps_str x +:+ "}"
  | None => "}"
  end.

(** The items of a non-empty array after the opening bracket. *)
Fixpoint dumps_items {A} (f : A → string) (x : A) (l : list A) : string :=
  match l with
  | [] => f x +:+ "]"
  | y :: l' => f x +:+ ", " +:+ dumps_items f y l'
  end.

Definition dumps_list {A} (f : A → string) (l : list A) : string :=
  match l with
  | [] => "[]"
  | x :: l' => "[" +:+ dumps_items f x l'
  end.

Definition dumps_record (r : ServiceRecord) : string :=
  "{" +:+ key "affectedServices" +:+ dumps_str (affectedServices r) +:+ ", " +:+
  key "date" +:+ dumps_str (date r) +:+ ", " +:+
  key "status" +:+ dumps_str (status r) +:+ ", " +:+
  key "summary" +:+ dumps_str (summary r) +:+ ", " +:+
  key "updates" +:+ dumps_list dumps_update (updates r) +:+ "}".

Definition dumps (l : list ServiceRecord) : string :=
  dumps_list dumps_record l.

End Json.

(** ** Python list indexing *)

Inductive Exn := ValueError | KeyError | IndexError | TypeError | AttributeError.

Global Instance Exn_eq_dec : EqDecision Exn.
Proof. solve_decision. Defined.

(** The position that [l[i]], [l[i] = x] and [l.pop(i)] address in a list
    of length [n]: a negative [i] counts from the end, and anything outside
    [-n <= i < n] raises [IndexError]. *)
Definition py_index (i : Z) (n : nat) : option nat :=
  if (0 <=? i) then
    if (i <? Z.of_nat n) then Some (Z.to_nat i) else None
  else
    if (- Z.of_nat n <=? i) then Some (Z.to_nat (i + Z.of_nat n)) else None.

Definition py_getitem {A} (l : list A) (i : Z) : Exn + A :=
  match py_index i (length l) with
  | Some k => match l !! k with Some x => inr x | None => inl IndexError end
  | None => inl IndexError
  end.

Definition py_setitem {A} (l : list A) (i : Z) (x : A) : Exn + list A :=
  match py_index i (length l) with
  | Some k => inr (<[k := x]> l)
  | None => inl IndexError
  end.

Definition py_pop {A} (l : list A) (i : Z) : Exn + list A :=
  match py_index i (length l) with
  | Some k => inr (delete k l)
  | None => inl IndexError
  end.

(** ** Module state

    [global_statuses] and [original_statuses] are variables that hold either
    [None] or a reference to a list object; the list objects live in [heap],
    addressed by position, so that two variables naming one object see each
    other's in-place updates.  [working_copies] maps a service index (or
    [-1] for a service being created) to its working copy.  A working copy
    is only ever reachable through [working_copies], and the dictionaries
    inside a list are never updated in place, so both are kept by value.
    References come from [alloc] alone and so always address a list of the
    heap: [deref] gives [None] exactly when the variable is [None]. *)

Abbreviation loc := nat (only parsing).

Record State := {
  heap : list (list ServiceRecord);
  global_statuses : option loc;
  original_statuses : option loc;
  has_unsaved_changes : bool;
  working_copies : gmap Z ServiceRecord
}.

Definition initial_state : State :=
  {| heap := [];
     global_statuses := None;
     original_statuses := None;
     has_unsaved_changes := false;
     working_copies := ∅ |}.

Definition deref (st : State) (r : option loc) : option (list ServiceRecord) :=
  match r with
  | Some l => heap st !! l
  | None => None
  end.

(** The list [global_statuses] refers to, if any. *)
Definition canonical (st : State) : option (list ServiceRecord) :=
  deref st (global_statuses st).

(** The list [original_statuses] refers to, if any. *)
Definition baseline (st : State) : option (list ServiceRecord) :=
  deref st (original_statuses st).

Definition alloc (v : list ServiceRecord) (h : list (list ServiceRecord))
  : list (list ServiceRecord) * loc :=
  (h ++ [v], length h).

(** An in-place update of the list object [global_statuses] refers to. *)
Definition store_global (v : list ServiceRecord) (st : State) : State :=
  match global_statuses st with
  | Some l =>
      {| heap := <[l := v]> (heap st);
         global_statuses := global_statuses st;
         original_statuses := original_statuses st;
         has_unsaved_changes := has_unsaved_changes st;
         working_copies := working_copies st |}
  | None => st
  end.

Definition set_has_unsaved_changes (b : bool) (st : State) : State :=
  {| heap := heap st;
     global_statuses := global_statuses st;
     original_statuses := original_statuses st;
     has_unsaved_changes := b;
     working_copies := working_copies st |}.

Definition set_working_copies (w : gmap Z ServiceRecord) (st : State) : State :=
  {| heap := heap st;
     global_statuses := global_statuses st;
     original_statuses := original_statuses st;
     has_unsaved_changes := has_unsaved_changes st;
     working_copies := w |}.

(** ** [load_status_data], [has_changes], [get_status_data] *)

(** What [requests.get], [raise_for_status] and [response.json] deliver:
    the decoded document, or a [requests.RequestException]. *)
Inductive FetchResult :=
  | FetchOk (data : list ServiceRecord)
  | FetchRequestException.

Definition load_status_data (fetch : FetchResult) (st : State)
  : State * list ServiceRecord :=
  match fetch with
  | FetchOk data =>
      let '(h1, g) := alloc data (heap st) in   (* response.json() *)
      let '(h2, o) := alloc data h1 in          (* copy.deepcopy(global_statuses) *)
      ({| heap := h2;
          global_statuses := Some g;
          original_statuses := Some o;
          has_unsaved_changes := false;
          working_copies := working_copies st |}, data)
  | FetchRequestException => (st, [])
  end.

Definition has_changes (st : State) : bool :=
  match baseline st, canonical st with
  | Some o, Some g =>
      if negb (length g =? length o)%nat then true
      else negb (String.eqb (Json.dumps g) (Json.dumps o))
  | _, _ => false
  end.

Definition get_status_data (fetch : FetchResult) (st : State)
  : State * list ServiceRecord :=
  match canonical st with
  | None => load_status_data fetch st
  | Some g => (st, g)
  end.

(** ** Exceptions as results *)

Global Instance exn_bind : MBind (sum Exn) := λ A B f m,
  match m with
  | inl e => inl e
  | inr x => f x
  end.

(** ** [validate_date_format] and [validate_url]

    Both return the pair [(is_valid, error_message)]; here [None] stands
    for [(True, None)] and [Some msg] for [(False, msg)]. *)

Inductive ErrorMsg :=
  | DateFormatError      (* Date must be in format YYYY-MM-DDThh:mm ... *)
  | InvalidDateOrTime    (* Invalid date or time: <text of the ValueError> *)
  | InvalidUrl           (* Please enter a valid URL starting with http:// or https:// *)
  | UpdateRequired       (* At least one update is required *)
  | ServiceNameEmpty     (* Service name cannot be empty *)
  | SummaryEmpty.        (* Summary cannot be empty *)

Global Instance ErrorMsg_eq_dec : EqDecision ErrorMsg.
Proof. solve_decision. Defined.

Definition is_digit (c : ascii) : bool :=
  let n := N_of_ascii c in ((48 <=? n) && (n <=? 57))%N.

(** Exactly [k] decimal digits ([\d{k}]), with their value. *)
Fixpoint read_digits (k : nat) (acc : N) (s : string) : option (N * string) :=
  match k with
  | O => Some (acc, s)
  | S k' =>
      match s with
      | String c r =>
          if is_digit c then read_digits k' (10 * acc + (N_of_ascii c - 48))%N r
          else None
      | EmptyString => None
      end
  end.

Definition read_char (c : ascii) (s : string) : option string :=
  match s with
  | String c' r => if Ascii.eqb c c' then Some r else None
  | EmptyString => None
  end.

Definition newline : ascii := "010"%char.

(** The pattern [^\d{4}-\d{2}-\d{2}T\d{2}:\d{2}$] under [re.match]; the
    dollar also matches before a final newline.  Returns the five numbers
    and what follows them. *)
Definition match_date_pattern (s : string) : option (N * N * N * N * N * string) :=
  '(y, s) ← read_digits 4 0%N s;
  s ← read_char "-" s;
  '(mo, s) ← read_digits 2 0%N s;
  s ← read_char "-" s;
  '(d, s) ← read_digits 2 0%N s;
  s ← read_char "T" s;
  '(h, s) ← read_digits 2 0%N s;
  s ← read_char ":" s;
  '(mi, s) ← read_digits 2 0%N s;
  match s with
  | EmptyString => Some (y, mo, d, h, mi, s)
  | String c EmptyString => if Ascii.eqb c newline then Some (y, mo, d, h, mi, s) else None
  | _ => None
  end.

Definition is_leap (y : N) : bool :=
  ((y mod 4 =? 0) && (negb (y mod 100 =? 0) || (y mod 400 =? 0)))%N.

Definition days_in_month (y mo : N) : N :=
  (if mo =? 2 then (if is_leap y then 29 else 28)
   else if (mo =? 4) || (mo =? 6) || (mo =? 9) || (mo =? 11) then 30
   else 31)%N.

(** Whether [datetime.datetime.strptime(date_str, "%Y-%m-%dT%H:%M")]
    accepts a text that matched the pattern. *)
Definition strptime_ok (y mo d h mi : N) (rest : string) : bool :=
  match rest with
  | EmptyString =>
      ((1 <=? y) && (1 <=? mo) && (mo <=? 12) && (1 <=? d) &&
       (d <=? days_in_month y mo) && (h <=? 23) && (mi <=? 59))%N
  | _ => false
  end.

Definition validate_date_format (date_str : string) : option ErrorMsg :=
  match match_date_pattern date_str with
  | None => Some DateFormatError
  | Some (y, mo, d, h, mi, rest) =>
      if strptime_ok y mo d h mi rest then None else Some InvalidDateOrTime
  end.

(** [\w] on code points below 256: letters, digits, the underscore and the
    alphanumeric characters of Latin-1. *)
Definition is_word_char (c : ascii) : bool :=
  let n := N_of_ascii c in
  ((48 <=? n) && (n <=? 57) || (65 <=? n) && (n <=? 90) || (n =? 95) ||
   (97 <=? n) && (n <=? 122) || (n =? 170) || (178 <=? n) && (n <=? 179) ||
   (n =? 181) || (185 <=? n) && (n <=? 186) || (188 <=? n) && (n <=? 190) ||
   (192 <=? n) && (n <=? 214) || (216 <=? n) && (n <=? 246) || (248 <=? n))%N.

Definition is_hex_digit (c : ascii) : bool :=
  let n := N_of_ascii c in
  ((48 <=? n) && (n <=? 57) || (97 <=? n) && (n <=? 102) ||
   (65 <=? n) && (n <=? 70))%N.

Fixpoint strip_prefix (p s : string) : option string :=
  match p with
  | EmptyString => Some s
  | String c p' =>
      match s with
      | String c' s' => if Ascii.eqb c c' then strip_prefix p' s' else None
      | EmptyString => None
      end
  end.

(** One repetition of [(?:[-\w.]|(?:%[\da-fA-F]{2}))] at the front. *)
Definition url_unit (s : string) : bool :=
  match s with
  | String c r =>
      if Ascii.eqb c "-" || is_word_char c || Ascii.eqb c "." then true
      else if Ascii.eqb c "%" then
        match r with
        | String a (String b _) => is_hex_digit a && is_hex_digit b
        | _ => false
        end
      else false
  | EmptyString => false
  end.

(** The pattern [^https?://(?:[-\w.]|(?:%[\da-fA-F]{2}))+] under
    [re.match]: a prefix of the text has to match. *)
Definition match_url_pattern (url : string) : bool :=
  match strip_prefix "http" url with
  | Some r =>
      let r' := match read_char "s" r with Some r' => r' | None => r end in
      match strip_prefix "://" r' with
      | Some rest => url_unit rest
      | None => false
      end
  | None => false
  end.

Definition validate_url (url : string) : option ErrorMsg :=
  match url with
  | EmptyString => None            (* empty URLs are acceptable *)
  | _ => if match_url_pattern url then None else Some InvalidUrl
  end.

(** ** The submitted form

    [view["state"]["values"]] maps a block id to the actions of the block,
    and an action id to the state of its element.  Both are dictionaries
    that the handlers iterate in insertion order, so they are kept as
    association lists (with pairwise distinct keys).  A required text input
    always arrives with a text; the optional URL input arrives as [null]
    when left empty, which the handlers treat like the empty text. *)

Inductive ElementState :=
  | PlainTextInput (value : string)
  | StaticSelect (option_text option_value : string).

Abbreviation Dict V := (list (string * V)).

Fixpoint dict_get {V} (k : string) (d : Dict V) : option V :=
  match d with
  | [] => None
  | (k', v) :: d' => if String.eqb k k' then Some v else dict_get k d'
  end.

Abbreviation ViewValues := (Dict (Dict ElementState)).

(** [values[block][action]["value"]]. *)
Definition input_value (values : ViewValues) (block action : string) : Exn + string :=
  match dict_get block values with
  | None => inl KeyError
  | Some actions =>
      match dict_get action actions with
      | Some (PlainTextInput v) => inr v
      | _ => inl KeyError
      end
  end.

(** [values[block][action]["selected_option"]["text"]["text"]]. *)
Definition selected_text (values : ViewValues) (block action : string) : Exn + string :=
  match dict_get block values with
  | None => inl KeyError
  | Some actions =>
      match dict_get action actions with
      | Some (StaticSelect t _) => inr t
      | _ => inl KeyError
      end
  end.

Record FormBlocks := {
  service_name_block : option string;
  service_status_block : option string;
  service_date_block : option string;
  service_summary_block : option string
}.

Definition scan_form_action (block_id action_id : string) (fb : FormBlocks) : FormBlocks :=
  if String.eqb action_id "service_name_input" then
    {| service_name_block := Some block_id;
       service_status_block := service_status_block fb;
       service_date_block := service_date_block fb;
       service_summary_block := service_summary_block fb |}
  else if String.eqb action_id "service_status_select" then
    {| service_name_block := service_name_block fb;
       service_status_block := Some block_id;
       service_date_block := service_date_block fb;
       service_summary_block := service_summary_block fb |}
  else if String.eqb action_id "service_date_input" then
    {| service_name_block := service_name_block fb;
       service_status_block := service_status_block fb;
       service_date_block := Some block_id;
       service_summary_block := service_summary_block fb |}
  else if String.eqb action_id "service_summary_input" then
    {| service_name_block := service_name_block fb;
       service_status_block := service_status_block fb;
       service_date_block := service_date_block fb;
       service_summary_block := Some block_id |}
  else fb.

(** The first pair of loops: block ids by action id. *)
Definition find_form_blocks (values : ViewValues) : FormBlocks :=
  foldl (λ fb '(block_id, actions),
           foldl (λ fb '(action_id, _), scan_form_action block_id action_id fb)
                 fb actions)
        {| service_name_block := None; service_status_block := None;
           service_date_block := None; service_summary_block := None |}
        values.

(** A block variable that [all([...])] accepts: set, and not empty. *)
Definition truthy (b : option string) : option string :=
  match b with
  | Some EmptyString => None
  | _ => b
  end.

(** The longest run of digits at the front, and what follows. *)
Fixpoint span_digits (s : string) : string * string :=
  match s with
  | String c r =>
      if is_digit c then let '(d, rest) := span_digits r in (String c d, rest)
      else (EmptyString, s)
  | EmptyString => (EmptyString, EmptyString)
  end.

(** [re.match("update_(\d+)" + suffix, block_id)], giving group 1. *)
Definition match_update_block (suffix block_id : string) : option string :=
  r ← strip_prefix "update_" block_id;
  let '(idx, rest) := span_digits r in
  match idx with
  | EmptyString => None
  | _ => _ ← strip_prefix suffix rest; Some idx
  end.

Record UpdateBlocks := {
  update_blocks : gmap string string;
  update_details_blocks : gmap string string;
  update_url_blocks : gmap string string
}.

Definition scan_update_action (block_id action_id : string) (ub : UpdateBlocks) : UpdateBlocks :=
  if String.eqb action_id "update_date_input" then
    match match_update_block "_date" block_id with
    | Some idx =>
        {| update_blocks := <[idx := block_id]> (update_blocks ub);
           update_details_blocks := update_details_blocks ub;
           update_url_blocks := update_url_blocks ub |}
    | None => ub
    end
  else if String.eqb action_id "update_details_input" then
    match match_update_block "_details" block_id with
    | Some idx =>
        {| update_blocks := update_blocks ub;
           update_details_blocks := <[idx := block_id]> (update_details_blocks ub);
           update_url_blocks := update_url_blocks ub |}
    | None => ub
    end
  else if String.eqb action_id "update_url_input" then
    match match_update_block "_url" block_id with
    | Some idx =>
        {| update_blocks := update_blocks ub;
           update_details_blocks := update_details_blocks ub;
           update_url_blocks := <[idx := block_id]> (update_url_blocks ub) |}
    | None => ub
    end
  else ub.

(** The second pair of loops: update blocks by the number in their id. *)
Definition find_update_blocks (values : ViewValues) : UpdateBlocks :=
  foldl (λ ub '(block_id, actions),
           foldl (λ ub '(action_id, _), scan_update_action block_id action_id ub)
                 ub actions)
        {| update_blocks := ∅; update_details_blocks := ∅; update_url_blocks := ∅ |}
        values.

(** [sorted(update_blocks.keys())]: the keys are texts and are compared as
    texts. *)
Definition sorted_keys (m : gmap string string) : list string :=
  merge_sort String.le (elements (dom m)).

Abbreviation Errors := (gmap string ErrorMsg).

(** The loop over the sorted update numbers. *)
Fixpoint process_updates (values : ViewValues) (ub : UpdateBlocks)
    (idxs : list string) (errors : Errors) (acc : list UpdateEntry)
  : Exn + (Errors * list UpdateEntry) :=
  match idxs with
  | [] => inr (errors, acc)
  | idx :: rest =>
      match update_details_blocks ub !! idx with
      | None => process_updates values ub rest errors acc
      | Some update_details_block =>
          match update_blocks ub !! idx with
          | None => inl KeyError
          | Some update_block =>
              update_date ← input_value values update_block "update_date_input";
              update_details ←
                input_value values update_details_block "update_details_input";
              match validate_date_format update_date with
              | Some error_msg =>
                  process_updates values ub rest
                    (<[update_block := error_msg]> errors) acc
              | None =>
                  let update :=
                    {| u_date := update_date; u_details := update_details;
                       u_url := None |} in
                  match update_url_blocks ub !! idx with
                  | None => process_updates values ub rest errors (acc ++ [update])
                  | Some update_url_block =>
                      url_value ←
                        input_value values update_url_block "update_url_input";
                      match url_value with
                      | EmptyString =>
                          process_updates values ub rest errors (acc ++ [update])
                      | _ =>
                          match validate_url url_value with
                          | Some error_msg =>
                              process_updates values ub rest
                                (<[update_url_block := error_msg]> errors) acc
                          | None =>
                              process_updates values ub rest errors
                                (acc ++ [ {| u_date := update_date;
                                             u_details := update_details;
                                             u_url := Some url_value |} ])
                          end
                      end
                  end
              end
          end
      end
  end.

(** The statements that [handle_edit_service_submission] and
    [handle_add_service_submission] have in common, from the search for the
    form fields down to the last check: the violation map and the record
    built from the form, or the exception that stopped them. *)
Definition validate_form (values : ViewValues) : Exn + (Errors * ServiceRecord) :=
  let fb := find_form_blocks values in
  match truthy (service_name_block fb), truthy (service_status_block fb),
        truthy (service_date_block fb), truthy (service_summary_block fb) with
  | Some name_block, Some status_block, Some date_block, Some summary_block =>
      service_name ← input_value values name_block "service_name_input";
      service_status ← selected_text values status_block "service_status_select";
      service_date ← input_value values date_block "service_date_input";
      service_summary ← input_value values summary_block "service_summary_input";
      let errors : Errors :=
        match validate_date_format service_date with
        | Some error_msg => {[ date_block := error_msg ]}
        | None => ∅
        end in
      let ub := find_update_blocks values in
      '(errors, new_updates) ←
        process_updates values ub (sorted_keys (update_blocks ub)) errors [];
      let errors :=
        match new_updates with
        | [] => <[summary_block := UpdateRequired]> errors
        | _ => errors
        end in
      let errors :=
        match service_name with
        | EmptyString => <[name_block := ServiceNameEmpty]> errors
        | _ => errors
        end in
      let errors :=
        match service_summary with
        | EmptyString => <[summary_block := SummaryEmpty]> errors
        | _ => errors
        end in
      inr (errors,
           {| status := service_status;
              affectedServices := service_name;
              summary := service_summary;
              date := service_date;
              updates := new_updates |})
  | _, _, _, _ => inl ValueError   (* Could not find all required form fields *)
  end.

(** ** The submission handlers *)

(** How a submission ends.  After [Acknowledged] the handlers go on to
    show the list of services again; that touches no state and is left
    out. *)
Inductive SubmissionOutcome :=
  | ResponseErrors (errors : Errors)   (* ack(response_action="errors", errors=errors) *)
  | Acknowledged                       (* ack(), and the state was updated *)
  | SubmissionFailed (e : Exn).        (* the [except] branch: a chat message with the exception *)

(** [handle_edit_service_submission]; [service_index] is the number in
    front of the colon in [view["private_metadata"]]. *)
Definition handle_edit_service_submission (service_index : Z) (values : ViewValues)
    (st : State) : State * SubmissionOutcome :=
  match validate_form values with
  | inl e => (st, SubmissionFailed e)
  | inr (errors, updated_service) =>
      if decide (errors = ∅) then
        match canonical st with
        | None => (st, SubmissionFailed TypeError)
        | Some g =>
            match py_setitem g service_index updated_service with
            | inl e => (st, SubmissionFailed e)
            | inr g' =>
                (set_working_copies (delete service_index (working_copies st))
                   (set_has_unsaved_changes true (store_global g' st)),
                 Acknowledged)
            end
        end
      else (st, ResponseErrors errors)
  end.

(** [handle_add_service_submission]. *)
Definition handle_add_service_submission (values : ViewValues) (st : State)
  : State * SubmissionOutcome :=
  match validate_form values with
  | inl e => (st, SubmissionFailed e)
  | inr (errors, new_service) =>
      if decide (errors = ∅) then
        match canonical st with
        | None => (st, SubmissionFailed AttributeError)
        | Some g =>
            (set_working_copies (delete (-1) (working_copies st))
               (set_has_unsaved_changes true (store_global (g ++ [new_service]) st)),
             Acknowledged)
        end
      else (st, ResponseErrors errors)
  end.

(** ** Modals

    What the handlers below put on screen, as far as it matters for the
    next event: the kind of [callback_id] (it selects the submission
    handler), the service index in [private_metadata], and the service the
    form is filled from. *)

Inductive CallbackId := add_service_modal | edit_service_modal.

Record Modal := {
  callback_id : CallbackId;
  private_metadata : Z;
  shown : ServiceRecord
}.

(** The dispatch of a [view_submission] event on the patterns
    [add_service_modal.*] and [edit_service_modal.*]. *)
Definition submit_modal (m : Modal) (values : ViewValues) (st : State)
  : State * SubmissionOutcome :=
  match callback_id m with
  | add_service_modal => handle_add_service_submission values st
  | edit_service_modal => handle_edit_service_submission (private_metadata m) values st
  end.

(** ** Working copies *)

(** [service.copy()] with the updates copied one by one. *)
Definition copy_service (service : ServiceRecord) : ServiceRecord :=
  {| status := status service;
     affectedServices := affectedServices service;
     summary := summary service;
     date := date service;
     updates := updates service |}.

Definition set_updates (us : list UpdateEntry) (service : ServiceRecord) : ServiceRecord :=
  {| status := status service;
     affectedServices := affectedServices service;
     summary := summary service;
     date := date service;
     updates := us |}.

(** The working copy of [service_index], or a copy of
    [global_statuses[service_index]] when there is none yet. *)
Definition get_or_create_working_copy (service_index : Z) (st : State)
  : Exn + ServiceRecord :=
  match working_copies st !! service_index with
  | Some working_copy => inr working_copy
  | None =>
      match canonical st with
      | None => inl TypeError
      | Some g => service ← py_getitem g service_index; inr (copy_service service)
      end
  end.

Inductive DeleteUpdateOutcome :=
  | UpdateDeleted (m : Modal)
  | UpdateNotFound (update_index : Z) (total : nat)
  | DeleteUpdateFailed (e : Exn).

(** [handle_delete_update]; the button value is
    [service_index:update_index]. *)
Definition handle_delete_update (service_index update_index : Z) (st : State)
  : State * DeleteUpdateOutcome :=
  match get_or_create_working_copy service_index st with
  | inl e => (st, DeleteUpdateFailed e)
  | inr working_copy =>
      if update_index <? Z.of_nat (length (updates working_copy)) then
        match py_pop (updates working_copy) update_index with
        | inl e => (st, DeleteUpdateFailed e)
        | inr us =>
            let working_copy := set_updates us working_copy in
            (set_working_copies
               (<[service_index := working_copy]> (working_copies st)) st,
             UpdateDeleted
               {| callback_id := edit_service_modal;
                  private_metadata := service_index;
                  shown := working_copy |})
        end
      else (st, UpdateNotFound update_index (length (updates working_copy)))
  end.

Definition empty_service : ServiceRecord :=
  {| status := "resolved"; affectedServices := EmptyString;
     summary := EmptyString; date := EmptyString; updates := [] |}.

(** The values of a new-service form that [handle_add_update] carries over
    into a fresh working copy. *)
Definition extract_form_action (action_id : string) (value : ElementState)
    (working_copy : ServiceRecord) : ServiceRecord :=
  match value with
  | PlainTextInput v =>
      if String.eqb action_id "service_name_input" then
        {| status := status working_copy; affectedServices := v;
           summary := summary working_copy; date := date working_copy;
           updates := updates working_copy |}
      else if String.eqb action_id "service_date_input" then
        {| status := status working_copy;
           affectedServices := affectedServices working_copy;
           summary := summary working_copy; date := v;
           updates := updates working_copy |}
      else if String.eqb action_id "service_summary_input" then
        {| status := status working_copy;
           affectedServices := affectedServices working_copy;
           summary := v; date := date working_copy;
           updates := updates working_copy |}
      else working_copy
  | StaticSelect _ v =>
      if String.eqb action_id "service_status_select" then
        {| status := v; affectedServices := affectedServices working_copy;
           summary := summary working_copy; date := date working_copy;
           updates := updates working_copy |}
      else working_copy
  end.

Definition extract_form (values : ViewValues) : ServiceRecord :=
  foldl (λ wc '(_, actions),
           foldl (λ wc '(action_id, value), extract_form_action action_id value wc)
                 wc actions)
        empty_service values.

Definition new_update : UpdateEntry :=
  {| u_date := EmptyString; u_details := EmptyString; u_url := Some EmptyString |}.

(** [handle_add_update]; [body_values] is [body["view"]["state"]["values"]]
    when the event carries it. *)
Definition handle_add_update (service_index : Z) (body_values : option ViewValues)
    (st : State) : State * (Exn + Modal) :=
  let working_copy : Exn + ServiceRecord :=
    if decide (service_index = -1) then
      match working_copies st !! (-1) with
      | Some wc =>
          match updates wc with
          | [] => inr (from_option extract_form empty_service body_values)
          | _ => inr wc
          end
      | None => inr (from_option extract_form empty_service body_values)
      end
    else get_or_create_working_copy service_index st in
  match working_copy with
  | inl e => (st, inl e)
  | inr working_copy =>
      let working_copy :=
        set_updates (updates working_copy ++ [new_update]) working_copy in
      (set_working_copies (<[service_index := working_copy]> (working_copies st)) st,
       inr {| callback_id :=
                if decide (service_index = -1) then add_service_modal
                else edit_service_modal;
              private_metadata := service_index;
              shown := working_copy |})
  end.

(** [handle_add_service]. *)
Definition handle_add_service (st : State) : State * Modal :=
  (set_working_copies (delete (-1) (working_copies st)) st,
   {| callback_id := add_service_modal; private_metadata := -1;
      shown := empty_service |}).

(** ** [handle_delete_service] *)

Inductive DeleteServiceOutcome :=
  | ServiceDeleted
  | ServiceIndexOutOfRange (service_index : Z) (total : nat)
      (* the message: Service index out of range *)
  | DeleteServiceFailed (e : Exn).

Definition handle_delete_service (service_index : Z) (st : State)
  : State * DeleteServiceOutcome :=
  match canonical st with
  | None => (st, DeleteServiceFailed TypeError)
  | Some g =>
      match py_getitem g service_index with   (* the service name, for the message *)
      | inl e => (st, DeleteServiceFailed e)
      | inr _ =>
          if (0 <=? service_index) && (service_index <? Z.of_nat (length g)) then
            match py_pop g service_index with
            | inl e => (st, DeleteServiceFailed e)
            | inr g' =>
                (set_working_copies (delete service_index (working_copies st))
                   (set_has_unsaved_changes true (store_global g' st)),
                 ServiceDeleted)
            end
          else (st, ServiceIndexOutOfRange service_index (length g))
      end
  end.

(** ** [handle_submit_changes] *)

Inductive HttpResponse :=
  | HttpRaised                 (* the request raised *)
  | HttpStatus (code : Z).

(** What the process sees of GitHub during one submission. *)
Record GitHub := {
  GITHUB_TOKEN : option string;
  get_file : HttpResponse;                        (* GET of the current file *)
  put_file : list ServiceRecord → HttpResponse    (* PUT of the new content *)
}.

Inductive RemoteCall :=
  | GithubGet
  | GithubPut (content : list ServiceRecord).

Inductive SubmitOutcome :=
  | NoChangesDetected        (* No changes detected to submit. *)
  | TokenNotFound
  | GetFileError (code : Z)
  | PutFileError (code : Z)
  | ChangesSubmitted
  | SubmitFailed.            (* the [except] branch *)

Definition handle_submit_changes (gh : GitHub) (st : State)
  : State * SubmitOutcome * list RemoteCall :=
  if negb (has_changes st) then (st, NoChangesDetected, [])
  else
    match GITHUB_TOKEN gh with
    | None | Some EmptyString => (st, TokenNotFound, [])
    | Some _ =>
        match canonical st with
        | None => (st, SubmitFailed, [])
        | Some content =>
            match get_file gh with
            | HttpRaised => (st, SubmitFailed, [GithubGet])
            | HttpStatus code =>
                if negb (code =? 200) then (st, GetFileError code, [GithubGet])
                else
                  match put_file gh content with
                  | HttpRaised => (st, SubmitFailed, [GithubGet; GithubPut content])
                  | HttpStatus code =>
                      if negb ((code =? 200) || (code =? 201)) then
                        (st, PutFileError code, [GithubGet; GithubPut content])
                      else
                        (set_has_unsaved_changes false st, ChangesSubmitted,
                         [GithubGet; GithubPut content])
                  end
            end
        end
    end.

(** ** Edits of a working copy *)

Inductive DraftOp :=
  | AddUpdate (body_values : option ViewValues)
  | DeleteUpdate (update_index : Z).

Definition run_draft_op (service_index : Z) (op : DraftOp) (st : State) : State :=
  match op with
  | AddUpdate body_values => (handle_add_update service_index body_values st).1
  | DeleteUpdate update_index => (handle_delete_update service_index update_index st).1
  end.

Definition run_draft_ops (service_index : Z) (ops : list DraftOp) (st : State) : State :=
  foldl (λ st op, run_draft_op service_index op st) st ops.

(** What [handle_delete_service] reports for an index that addresses no
    service: its own message, or the [IndexError] of the list access that
    comes before the range check. *)
Definition reports_out_of_range (service_index : Z) (total : nat)
    (out : DeleteServiceOutcome) : Prop :=
  out = ServiceIndexOutOfRange service_index total ∨
  out = DeleteServiceFailed IndexError.

(** ** Sample data

    A form as [create_service_detail_blocks] lays it out (the suffix of the
    block ids is the time stamp), and the states of a short session. *)

Module Sample.

Definition text_input (block action v : string) : string * Dict ElementState :=
  (block, [(action, PlainTextInput v)]).

Definition update_inputs (j d details url : string) : ViewValues :=
  [ text_input ("update_" +:+ j +:+ "_date_17") "update_date_input" d;
    text_input ("update_" +:+ j +:+ "_details_17") "update_details_input" details;
    text_input ("update_" +:+ j +:+ "_url_17") "update_url_input" url ].

Definition service_inputs (name status_text d summ : string) : ViewValues :=
  [ text_input "service_name_17" "service_name_input" name;
    ("service_status_17",
     [("service_status_select", StaticSelect status_text "resolved")]);
    text_input "service_date_17" "service_date_input" d;
    text_input "service_summary_17" "service_summary_input" summ ].

Definition ongoing : UpdateEntry :=
  {| u_date := "2024-05-20T10:00"; u_details := "ongoing"; u_url := None |}.

Definition api_down : ServiceRecord :=
  {| status := "Down"; affectedServices := "API"; summary := "outage";
     date := "2024-05-20T10:00"; updates := [ongoing] |}.

Definition api_resolved : ServiceRecord :=
  {| status := "Resolved"; affectedServices := "API"; summary := "outage";
     date := "2024-05-20T10:00"; updates := [ongoing] |}.

Definition ftp_at_risk : ServiceRecord :=
  {| status := "At Risk"; affectedServices := "FTP"; summary := "slow";
     date := "2024-06-01T09:00";
     updates := [ {| u_date := "2024-06-01T09:00"; u_details := "monitoring";
                     u_url := Some "https://status.example.org" |} ] |}.

Definition form_api (status_text : string) : ViewValues :=
  service_inputs "API" status_text "2024-05-20T10:00" "outage" ++
  update_inputs "0" "2024-05-20T10:00" "ongoing" EmptyString.

(** The same form with the date of the service mistyped. *)
Definition form_bad_date : ViewValues :=
  service_inputs "API" "Resolved" "20 May 2024" "outage" ++
  update_inputs "0" "2024-05-20T10:00" "ongoing" EmptyString.

(** Everything in order, except that the update says nothing. *)
Definition form_no_details : ViewValues :=
  service_inputs "API" "Resolved" "2024-05-20T10:00" "outage" ++
  update_inputs "0" "2024-05-20T10:00" EmptyString EmptyString.

(** Two updates; the second has neither a date nor a link that passes. *)
Definition form_bad_update : ViewValues :=
  service_inputs "API" "Resolved" "2024-05-20T10:00" "outage" ++
  update_inputs "0" "2024-05-20T10:00" "ongoing" EmptyString ++
  update_inputs "1" "tomorrow" "fixed" "see wiki".

Definition form_mail : ViewValues :=
  service_inputs "Mail" "Degraded" "2024-07-01T08:00" "delays" ++
  update_inputs "0" "2024-07-01T08:00" "queue is long" EmptyString.

Definition mail_degraded : ServiceRecord :=
  {| status := "Degraded"; affectedServices := "Mail"; summary := "delays";
     date := "2024-07-01T08:00";
     updates := [ {| u_date := "2024-07-01T08:00"; u_details := "queue is long";
                     u_url := None |} ] |}.

(** After [load_status_data] fetched one service. *)
Definition loaded : State :=
  (load_status_data (FetchOk [api_down]) initial_state).1.

(** ... and the service was saved as resolved. *)
Definition edited : State :=
  (handle_edit_service_submission 0 (form_api "Resolved") loaded).1.

Definition github_ok : GitHub :=
  {| GITHUB_TOKEN := Some "token";
     get_file := HttpStatus 200;
     put_file := λ _, HttpStatus 200 |}.

(** A working copy of service 0 with two updates. *)
Definition drafting : State :=
  (handle_add_update 0 None loaded).1.

(** Two services loaded; then Add Service, Add New Update twice, and
    Delete Update on the second of them. *)
Definition loaded2 : State :=
  (load_status_data (FetchOk [api_down; ftp_at_risk]) initial_state).1.

Definition creating : State :=
  let s := (handle_add_service loaded2).1 in
  let s := (handle_add_update (-1) (Some (service_inputs EmptyString "Resolved" EmptyString EmptyString)) s).1 in
  (handle_add_update (-1) None s).1.

End Sample.

(** ** [get_status_emoji] and the status option of the form *)

(** [str.lower] on code points below 256: the letters A to Z and the
    accented capitals of Latin-1 move up by 32. *)
Definition lower_char (c : ascii) : ascii :=
  let n := N_of_ascii c in
  if ((65 <=? n) && (n <=? 90) ||
      (192 <=? n) && (n <=? 222) && negb (n =? 215))%N
  then ascii_of_N (n + 32) else c.

Fixpoint lower (s : string) : string :=
  match s with
  | EmptyString => EmptyString
  | String c r => String (lower_char c) (lower r)
  end.

(** [needle in text]. *)
Fixpoint contains (needle text : string) : bool :=
  match strip_prefix needle text with
  | Some _ => true
  | None =>
      match text with
      | String _ r => contains needle r
      | EmptyString => false
      end
  end.

Inductive Emoji :=
  | CheckMark       (* resolved *)
  | Radioactive     (* degraded *)
  | NoEntry         (* down *)
  | WarningSign.    (* at risk, and the default *)

Definition get_status_emoji (status_text : string) : Emoji :=
  let status_text := lower status_text in
  if contains "resolved" status_text then CheckMark
  else if contains "degraded" status_text then Radioactive
  else if contains "down" status_text then NoEntry
  else if contains "at risk" status_text then WarningSign
  else WarningSign.

(** The option that [create_service_detail_blocks] preselects in the
    status drop-down, as [(mapped_status, mapped_value)]. *)
Definition initial_status_option (service_status : string) : string * string :=
  let status_text := lower service_status in
  if contains "degraded" status_text then ("Degraded", "degraded")
  else if contains "down" status_text then ("Down", "down")
  else if contains "at risk" status_text then ("At Risk", "at risk")
  else ("Resolved", "resolved").

(** ** The form of a service

    [create_service_detail_blocks], as far as a submission sees it: the
    input blocks of the form in their order, each with its block id, the
    action id of its element and the initial content of the element.  This
    is the shape of [view["state"]["values"]], and it is what a submission
    carries when the form is sent as it was shown. *)

(** [str(j)] of a position in a list. *)
Definition str (j : nat) : string := pretty j.

(** The three inputs of update [j]. *)
Definition update_input_blocks (j : nat) (update : UpdateEntry)
    (unique_suffix : string) : ViewValues :=
  [ ("update_" +:+ str j +:+ "_date_" +:+ unique_suffix,
     [("update_date_input", PlainTextInput (u_date update))]);
    ("update_" +:+ str j +:+ "_details_" +:+ unique_suffix,
     [("update_details_input", PlainTextInput (u_details update))]);
    ("update_" +:+ str j +:+ "_url_" +:+ unique_suffix,
     [("update_url_input",
       PlainTextInput (default EmptyString (u_url update)))]) ].

(** The loop over [enumerate(service["updates"])], from position [j] on. *)
Fixpoint update_inputs_from (j : nat) (updates : list UpdateEntry)
    (unique_suffix : string) : ViewValues :=
  match updates with
  | [] => []
  | update :: rest =>
      update_input_blocks j update unique_suffix ++
      update_inputs_from (S j) rest unique_suffix
  end.

Definition create_service_detail_blocks (service : ServiceRecord)
    (unique_suffix : string) : ViewValues :=
  let '(mapped_status, mapped_value) := initial_status_option (status service) in
  [ ("service_name_" +:+ unique_suffix,
     [("service_name_input", PlainTextInput (affectedServices service))]);
    ("service_status_" +:+ unique_suffix,
     [("service_status_select", StaticSelect mapped_status mapped_value)]);
    ("service_date_" +:+ unique_suffix,
     [("service_date_input", PlainTextInput (date service))]);
    ("service_summary_" +:+ unique_suffix,
     [("service_summary_input", PlainTextInput (summary service))]) ] ++
  update_inputs_from 0 (updates service) unique_suffix.

(** ** The list of services *)

(** [s.split(",")]. *)
Fixpoint split_comma (s : string) : list string :=
  match s with
  | EmptyString => [EmptyString]
  | String c r =>
      if Ascii.eqb c "," then EmptyString :: split_comma r
      else
        match split_comma r with
        | x :: xs => String c x :: xs
        | [] => [String c EmptyString]
        end
  end.

(** The environment variable AUTHORISED_USERS, or the empty text when it
    is not set, split at the commas. *)
Definition AUTHORISED_USERS (env : option string) : list string :=
  split_comma (default EmptyString env).

(** What the list modal shows: the services, and whether the warning about
    unsaved changes (with the Reset button) is there. *)
Record ListView := {
  listed : list ServiceRecord;
  unsaved_warning : bool
}.

Inductive OpenOutcome :=
  | MissingUserId
  | NotAuthorised
  | ListShown (v : ListView).

(** [open_edit_modal]; [user_id] is [body["user_id"]] when present. *)
Definition open_edit_modal (authorised : list string) (user_id : option string)
    (fetch : FetchResult) (st : State) : State * OpenOutcome :=
  match user_id with
  | None => (st, MissingUserId)
  | Some u =>
      if bool_decide (u ∈ authorised) then
        let '(st', statuses) := get_status_data fetch st in
        (st', ListShown {| listed := statuses; unsaved_warning := has_changes st' |})
      else (st, NotAuthorised)
  end.

(** [handle_back_to_list]; without a view id in the event it only sends a
    message. *)
Definition handle_back_to_list (view_id : option string) (fetch : FetchResult)
    (st : State) : State * option ListView :=
  match view_id with
  | None => (st, None)
  | Some _ =>
      let '(st', statuses) := get_status_data fetch st in
      (st', Some {| listed := statuses; unsaved_warning := has_changes st' |})
  end.

(** [ceda_status_command]: one line per service, or the text that there is
    no status information. *)
Definition ceda_status_command (fetch : FetchResult) (st : State)
  : State * option (list (Emoji * ServiceRecord)) :=
  let '(st', data) := get_status_data fetch st in
  (st', match data with
        | [] => None
        | _ => Some ((λ s, (get_status_emoji (status s), s)) <$> data)
        end).

(** [show_service_details], reached from [handle_edit_service]; [view_id]
    is [body["container"]["view_id"]] when present.  When [global_statuses]
    is still [None] it is assigned what [get_status_data] returns: the list
    just loaded, or a new empty list after a failed fetch. *)
Definition show_service_details (view_id : option string) (fetch : FetchResult)
    (service_index : Z) (st : State) : State * (Exn + Modal) :=
  match view_id with
  | None => (st, inl KeyError)
  | Some _ =>
      let st := set_working_copies (delete service_index (working_copies st)) st in
      let st :=
        match global_statuses st with
        | Some _ => st
        | None =>
            let '(st', ret) := get_status_data fetch st in
            match global_statuses st' with
            | Some _ => st'
            | None =>
                let '(h, l) := alloc ret (heap st') in
                {| heap := h;
                   global_statuses := Some l;
                   original_statuses := original_statuses st';
                   has_unsaved_changes := has_unsaved_changes st';
                   working_copies := working_copies st' |}
            end
        end in
      match canonical st with
      | None => (st, inl TypeError)
      | Some g =>
          match py_getitem g service_index with
          | inl e => (st, inl e)
          | inr service =>
              (st, inr {| callback_id := edit_service_modal;
                          private_metadata := service_index;
                          shown := service |})
          end
      end
  end.

(** [handle_reset_changes]: the reload, then [handle_back_to_list], which
    fetches once more when the reload left [global_statuses] unset. *)
Definition handle_reset_changes (fetch again : FetchResult) (view_id : option string)
    (st : State) : State * option ListView :=
  let st := (load_status_data fetch st).1 in
  let st := set_working_copies ∅ st in
  handle_back_to_list view_id again st.

(** [handle_back_to_list_from_service]. *)
Definition handle_back_to_list_from_service (view_id : option string)
    (fetch : FetchResult) (st : State) : State * option ListView :=
  handle_back_to_list view_id fetch
    (set_working_copies (delete (-1) (working_copies st)) st).

(** ** Fields of a form *)

(** Whether some block of the form has an action with this id. *)
Definition has_action (action_id : string) (values : ViewValues) : bool :=
  existsb (λ '(_, actions),
             existsb (λ '(a, _), String.eqb a action_id) (actions : Dict ElementState))
          values.

(** ** One round of the update loop

    What [process_updates] appends for one update number, when it appends
    anything: the update needs a details block, a date that passes, and a
    link that is empty or passes. *)
Definition accepted_update (values : ViewValues) (ub : UpdateBlocks) (idx : string)
  : option UpdateEntry :=
  match update_details_blocks ub !! idx, update_blocks ub !! idx with
  | Some update_details_block, Some update_block =>
      match input_value values update_block "update_date_input",
            input_value values update_details_block "update_details_input" with
      | inr update_date, inr update_details =>
          match validate_date_format update_date with
          | Some _ => None
          | None =>
              match update_url_blocks ub !! idx with
              | None =>
                  Some {| u_date := update_date; u_details := update_details;
                          u_url := None |}
              | Some update_url_block =>
                  match input_value values update_url_block "update_url_input" with
                  | inr EmptyString =>
                      Some {| u_date := update_date; u_details := update_details;
                              u_url := None |}
                  | inr url_value =>
                      match validate_url url_value with
                      | Some _ => None
                      | None =>
                          Some {| u_date := update_date;
                                  u_details := update_details;
                                  u_url := Some url_value |}
                      end
                  | inl _ => None
                  end
              end
          end
      | _, _ => None
      end
  | _, _ => None
  end.

(** ** Sessions

    The events that reach the state, and a session as a sequence of them. *)

Inductive Event :=
  | EvCedaStatus (fetch : FetchResult)
  | EvOpenEditModal (authorised : list string) (user_id : option string)
      (fetch : FetchResult)
  | EvBackToList (view_id : option string) (fetch : FetchResult)
  | EvBackToListFromService (view_id : option string) (fetch : FetchResult)
  | EvShowServiceDetails (view_id : option string) (fetch : FetchResult)
      (service_index : Z)
  | EvEditSubmission (service_index : Z) (values : ViewValues)
  | EvAddSubmission (values : ViewValues)
  | EvAddUpdate (service_index : Z) (body_values : option ViewValues)
  | EvDeleteUpdate (service_index update_index : Z)
  | EvAddService
  | EvDeleteService (service_index : Z)
  | EvResetChanges (fetch again : FetchResult) (view_id : option string)
  | EvSubmitChanges (gh : GitHub).

Definition dispatch (e : Event) (st : State) : State :=
  match e with
  | EvCedaStatus fetch => (ceda_status_command fetch st).1
  | EvOpenEditModal authorised user_id fetch =>
      (open_edit_modal authorised user_id fetch st).1
  | EvBackToList view_id fetch => (handle_back_to_list view_id fetch st).1
  | EvBackToListFromService view_id fetch =>
      (handle_back_to_list_from_service view_id fetch st).1
  | EvShowServiceDetails view_id fetch service_index =>
      (show_service_details view_id fetch service_index st).1
  | EvEditSubmission service_index values =>
      (handle_edit_service_submission service_index values st).1
  | EvAddSubmission values => (handle_add_service_submission values st).1
  | EvAddUpdate service_index body_values =>
      (handle_add_update service_index body_values st).1
  | EvDeleteUpdate service_index update_index =>
      (handle_delete_update service_index update_index st).1
  | EvAddService => (handle_add_service st).1
  | EvDeleteService service_index => (handle_delete_service service_index st).1
  | EvResetChanges fetch again view_id =>
      (handle_reset_changes fetch again view_id st).1
  | EvSubmitChanges gh => (handle_submit_changes gh st).1.1
  end.

Definition run_events (events : list Event) (st : State) : State :=
  foldl (λ st e, dispatch e st) st events.

(** The two variables refer to lists of the heap, never to the same one,
    and there is no baseline without a list of services. *)
Definition well_formed (st : State) : Prop :=
  (∀ l, global_statuses st = Some l → (l < length (heap st))%nat) ∧
  (∀ l, original_statuses st = Some l → (l < length (heap st))%nat) ∧
  (∀ l, original_statuses st = Some l →
        ∃ l', global_statuses st = Some l' ∧ l' ≠ l).

(** ** What a stored record looks like *)

Definition valid_update (u : UpdateEntry) : Prop :=
  validate_date_format (u_date u) = None ∧
  match u_url u with
  | None => True
  | Some x => x ≠ EmptyString ∧ validate_url x = None
  end.

Definition valid_service (r : ServiceRecord) : Prop :=
  validate_date_format (date r) = None ∧
  affectedServices r ≠ EmptyString ∧
  summary r ≠ EmptyString ∧
  updates r ≠ [] ∧
  Forall valid_update (updates r).

(** A form whose two updates carry the numbers 2 and 10. *)
Definition form_two_and_ten : ViewValues :=
  Sample.service_inputs "API" "Down" "2024-05-20T10:00" "outage" ++
  Sample.update_inputs "2" "2024-05-20T10:00" "third" EmptyString ++
  Sample.update_inputs "10" "2024-05-21T10:00" "eleventh" EmptyString.

(** A service with eleven updates, and the state after it was loaded. *)
Definition progress (day details : string) : UpdateEntry :=
  {| u_date := "2024-05-" +:+ day +:+ "T10:00"; u_details := details;
     u_url := None |}.

Definition long_running : ServiceRecord :=
  {| status := "Degraded"; affectedServices := "Archive";
     summary := "tape recalls are slow"; date := "2024-05-01T10:00";
     updates := [ progress "01" "d0"; progress "02" "d1"; progress "03" "d2";
                  progress "04" "d3"; progress "05" "d4"; progress "06" "d5";
                  progress "07" "d6"; progress "08" "d7"; progress "09" "d8";
                  progress "10" "d9"; progress "11" "d10" ] |}.

Definition loaded_long : State :=
  (load_status_data (FetchOk [long_running]) initial_state).1.

(** * Facts *)

Module JsonFacts.
Import Json.

Lemma string_app_nil (b : string) : EmptyString +:+ b = b.
Proof. reflexivity. Qed.

Lemma string_app_cons x (a b : string) : String x a +:+ b = String x (a +:+ b).
Proof. reflexivity. Qed.

Lemma string_app_assoc (a b c : string) : (a +:+ b) +:+ c = a +:+ b +:+ c.
Proof.
  induction a as [|x a IH]; [done|].
  by rewrite !string_app_cons, IH.
Qed.

Ltac sapp :=
  repeat first [rewrite string_app_assoc | rewrite string_app_cons
               | rewrite string_app_nil].
Ltac sapp_in H :=
  repeat first [rewrite string_app_assoc in H | rewrite string_app_cons in H
               | rewrite string_app_nil in H].

Lemma unescape_head_escape_char c r :
  unescape_head (escape_char c +:+ r) = Some (c, r).
Proof.
  destruct c as [[] [] [] [] [] [] [] []]; reflexivity.
Qed.

Lemma escape_char_head c r :
  ∃ a r', escape_char c +:+ r = String a r' ∧ a ≠ dquote.
Proof.
  destruct c as [[] [] [] [] [] [] [] []];
    (eexists _, _; split; [reflexivity | discriminate]).
Qed.

Lemma escape_inj s1 s2 r1 r2 :
  escape s1 +:+ String dquote r1 = escape s2 +:+ String dquote r2 →
  s1 = s2 ∧ r1 = r2.
Proof.
  revert s2; induction s1 as [|c1 s1 IH]; intros [|c2 s2] H; cbn [escape] in H; sapp_in H.
  - by simplify_eq.
  - destruct (escape_char_head c2 (escape s2 +:+ String dquote r2))
      as (a & r' & E & Ha).
    rewrite E in H. by simplify_eq.
  - destruct (escape_char_head c1 (escape s1 +:+ String dquote r1))
      as (a & r' & E & Ha).
    rewrite E in H. by simplify_eq.
  - apply (f_equal unescape_head) in H.
    rewrite !unescape_head_escape_char in H.
    injection H as -> Hr. by destruct (IH _ Hr) as [-> ->].
Qed.

Lemma dumps_str_inj s1 s2 r1 r2 :
  dumps_str s1 +:+ r1 = dumps_str s2 +:+ r2 → s1 = s2 ∧ r1 = r2.
Proof.
  unfold dumps_str. intros H. sapp_in H. injection H as H. by apply escape_inj.
Qed.

Lemma key_inj k r1 r2 : key k +:+ r1 = key k +:+ r2 → r1 = r2.
Proof. apply String.app_inj. Qed.

Local Opaque key dumps_str.

Lemma string_cons_inj c (a b : string) : String c a = String c b → a = b.
Proof. by intros [=]. Qed.

Lemma dumps_update_inj u1 u2 r1 r2 :
  dumps_update u1 +:+ r1 = dumps_update u2 +:+ r2 → u1 = u2 ∧ r1 = r2.
Proof.
  destruct u1 as [d1 t1 x1], u2 as [d2 t2 x2]. unfold dumps_update. cbn [u_date u_details u_url].
  intros H. sapp_in H. apply string_cons_inj in H.
  apply key_inj, dumps_str_inj in H as [-> H].
  do 2 apply string_cons_inj in H.
  apply key_inj, dumps_str_inj in H as [-> H].
  destruct x1 as [x1|], x2 as [x2|]; sapp_in H; try discriminate H.
  - do 2 apply string_cons_inj in H.
    apply key_inj, dumps_str_inj in H as [-> H]. by injection H as ->.
  - by injection H as ->.
Qed.

Section lists.
Context {A : Type} (f : A → string).
Hypothesis f_inj : ∀ a b r1 r2, f a +:+ r1 = f b +:+ r2 → a = b ∧ r1 = r2.
Hypothesis f_head : ∀ a r, ∃ r', f a +:+ r = String "{" r'.

Lemma dumps_items_inj x y l l' r1 r2 :
  dumps_items f x l +:+ r1 = dumps_items f y l' +:+ r2 →
  x = y ∧ l = l' ∧ r1 = r2.
Proof.
  revert x y l'; induction l as [|z l IH]; intros x y [|z' l'] H;
    cbn [dumps_items] in H; sapp_in H;
    apply f_inj in H as [-> H]; try discriminate H.
  - by injection H as ->.
  - do 2 apply string_cons_inj in H. by apply IH in H as (-> & -> & ->).
Qed.

Lemma dumps_items_head x l r : ∃ r', dumps_items f x l +:+ r = String "{" r'.
Proof. destruct l; cbn [dumps_items]; sapp; apply f_head. Qed.

Lemma dumps_list_inj l l' r1 r2 :
  dumps_list f l +:+ r1 = dumps_list f l' +:+ r2 → l = l' ∧ r1 = r2.
Proof.
  destruct l as [|x l], l' as [|y l']; unfold dumps_list; intros H;
    sapp_in H; apply string_cons_inj in H.
  - by injection H as ->.
  - destruct (dumps_items_head y l' r2) as [r' E].
    rewrite E in H. discriminate H.
  - destruct (dumps_items_head x l r1) as [r' E].
    rewrite E in H. discriminate H.
  - by apply dumps_items_inj in H as (-> & -> & ->).
Qed.
End lists.

Lemma dumps_update_head u r : ∃ r', dumps_update u +:+ r = String "{" r'.
Proof. unfold dumps_update. sapp. eauto. Qed.

Lemma dumps_record_head u r : ∃ r', dumps_record u +:+ r = String "{" r'.
Proof. unfold dumps_record. sapp. eauto. Qed.

Lemma dumps_record_inj a b r1 r2 :
  dumps_record a +:+ r1 = dumps_record b +:+ r2 → a = b ∧ r1 = r2.
Proof.
  destruct a as [s1 n1 m1 d1 u1], b as [s2 n2 m2 d2 u2]. unfold dumps_record.
  cbn [status affectedServices summary date updates].
  intros H. sapp_in H. apply string_cons_inj in H.
  apply key_inj, dumps_str_inj in H as [-> H]. do 2 apply string_cons_inj in H.
  apply key_inj, dumps_str_inj in H as [-> H]. do 2 apply string_cons_inj in H.
  apply key_inj, dumps_str_inj in H as [-> H]. do 2 apply string_cons_inj in H.
  apply key_inj, dumps_str_inj in H as [-> H]. do 2 apply string_cons_inj in H.
  apply key_inj in H.
  apply (dumps_list_inj _ dumps_update_inj dumps_update_head) in H as [-> H].
  by injection H as ->.
Qed.

Lemma string_app_nil_r (s : string) : s +:+ EmptyString = s.
Proof. induction s as [|c s IH]; [done|]. by rewrite string_app_cons, IH. Qed.

(** The serialisation determines the document. *)
Lemma dumps_inj a b : dumps a = dumps b → a = b.
Proof.
  intros H.
  assert (dumps a +:+ EmptyString = dumps b +:+ EmptyString) as H'
    by (by rewrite H).
  by apply (dumps_list_inj _ dumps_record_inj dumps_record_head) in H' as [-> _].
Qed.

End JsonFacts.

Section state_facts.
Implicit Types (st : State) (g o v : list ServiceRecord).

Lemma canonical_store_global st g v :
  canonical st = Some g → canonical (store_global v st) = Some v.
Proof.
  unfold canonical, store_global, deref.
  destruct st as [h [l|] o f w]; simpl; [|done].
  intros H. apply list_lookup_insert_eq. by eapply lookup_lt_Some.
Qed.

Lemma baseline_store_global st v :
  global_statuses st ≠ original_statuses st →
  baseline (store_global v st) = baseline st.
Proof.
  unfold baseline, store_global, deref.
  destruct st as [h [l|] [l'|] f w]; simpl; try done.
  intros Hne. apply list_lookup_insert_ne. congruence.
Qed.

Lemma has_changes_set_flag b st :
  has_changes (set_has_unsaved_changes b st) = has_changes st.
Proof. done. Qed.

Lemma has_changes_set_working_copies w st :
  has_changes (set_working_copies w st) = has_changes st.
Proof. done. Qed.

(** [has_changes] on two loaded lists is structural inequality. *)
Lemma has_changes_true_iff st g o :
  canonical st = Some g → baseline st = Some o →
  has_changes st = true ↔ g ≠ o.
Proof.
  intros Hg Ho. unfold has_changes. rewrite Hg, Ho.
  destruct (Nat.eqb_spec (length g) (length o)) as [Hlen|Hlen]; simpl.
  - rewrite negb_true_iff, String.eqb_neq. split.
    + intros Hne ->. by apply Hne.
    + intros Hne Heq. by apply Hne, JsonFacts.dumps_inj.
  - split; [|done]. intros _ ->. by apply Hlen.
Qed.

Lemma has_changes_false_iff st g o :
  canonical st = Some g → baseline st = Some o →
  has_changes st = false ↔ g = o.
Proof.
  intros Hg Ho. rewrite <-not_true_iff_false, (has_changes_true_iff _ g o) by done.
  destruct (decide (g = o)); naive_solver.
Qed.

Lemma has_changes_unset st :
  global_statuses st = None ∨ original_statuses st = None →
  has_changes st = false.
Proof.
  unfold has_changes, baseline, canonical, deref.
  intros [-> | ->]; [by destruct (original_statuses st) as [l|]; [destruct (heap st !! l)|]|done].
Qed.
End state_facts.

Section publish.
Lemma submit_no_changes gh st :
  has_changes st = false → handle_submit_changes gh st = (st, NoChangesDetected, []).
Proof. intros H. unfold handle_submit_changes. by rewrite H. Qed.

Lemma submit_success_inv gh st st' calls :
  handle_submit_changes gh st = (st', ChangesSubmitted, calls) →
  has_changes st = true ∧ st' = set_has_unsaved_changes false st.
Proof.
  unfold handle_submit_changes. intros H.
  destruct (has_changes st); [|done]. simpl in H.
  repeat case_match; by simplify_eq.
Qed.

(** A submission that GitHub accepts leaves [original_statuses] alone, so
    the comparison that let it through still finds a difference. *)
Lemma submit_success_still_dirty gh st st' calls :
  handle_submit_changes gh st = (st', ChangesSubmitted, calls) →
  has_changes st' = true ∧ baseline st' = baseline st.
Proof. intros [H ->]%submit_success_inv. by rewrite has_changes_set_flag. Qed.
End publish.

Section load.
Lemma load_ok data st :
  let st' := (load_status_data (FetchOk data) st).1 in
  canonical st' = Some data ∧ baseline st' = Some data ∧
  global_statuses st' ≠ original_statuses st' ∧
  has_unsaved_changes st' = false ∧ has_changes st' = false ∧
  (load_status_data (FetchOk data) st).2 = data.
Proof.
  assert (Hg : ((heap st ++ [data]) ++ [data]) !! length (heap st) = Some data).
  { rewrite lookup_app_l by (rewrite length_app; simpl; lia).
    by rewrite list_lookup_middle. }
  assert (Ho : ((heap st ++ [data]) ++ [data]) !! length (heap st ++ [data]) = Some data).
  { by rewrite list_lookup_middle. }
  simpl. unfold has_changes, canonical, baseline, deref. simpl.
  rewrite Hg, Ho. split_and!; try done.
  - rewrite length_app. simpl. intros [=]. lia.
  - by rewrite Nat.eqb_refl, String.eqb_refl.
Qed.
End load.

Section delete_service.
Lemma py_index_valid (i : Z) (n : nat) :
  0 ≤ i < Z.of_nat n → py_index i n = Some (Z.to_nat i).
Proof.
  intros H. unfold py_index.
  destruct (Z.leb_spec 0 i); [|lia]. by destruct (Z.ltb_spec i (Z.of_nat n)); [|lia].
Qed.

Lemma py_index_negative (i : Z) (n : nat) :
  - Z.of_nat n ≤ i < 0 → py_index i n = Some (Z.to_nat (i + Z.of_nat n)).
Proof.
  intros H. unfold py_index.
  destruct (Z.leb_spec 0 i); [lia|]. by destruct (Z.leb_spec (- Z.of_nat n) i); [|lia].
Qed.

Lemma py_index_lt (i : Z) (n k : nat) : py_index i n = Some k → (k < n)%nat.
Proof.
  unfold py_index. intros H.
  destruct (Z.leb_spec 0 i).
  - destruct (Z.ltb_spec i (Z.of_nat n)); simplify_eq. lia.
  - destruct (Z.leb_spec (- Z.of_nat n) i); simplify_eq. lia.
Qed.

Lemma py_getitem_valid {A} (l : list A) (i : Z) :
  - Z.of_nat (length l) ≤ i < Z.of_nat (length l) → ∃ x, py_getitem l i = inr x.
Proof.
  intros H. unfold py_getitem.
  destruct (py_index i (length l)) as [k|] eqn:E.
  - apply py_index_lt, lookup_lt_is_Some in E as [x ->]. eauto.
  - destruct (decide (0 ≤ i)).
    + rewrite py_index_valid in E by lia. done.
    + rewrite py_index_negative in E by lia. done.
Qed.

Lemma delete_service_invalid st g i :
  canonical st = Some g → ¬ (0 ≤ i < Z.of_nat (length g)) →
  ∃ out, handle_delete_service i st = (st, out) ∧
         reports_out_of_range i (length g) out.
Proof.
  intros Hg Hi. unfold handle_delete_service, reports_out_of_range. rewrite Hg.
  destruct (py_getitem g i) as [e|x] eqn:E.
  - unfold py_getitem in E. repeat case_match; simplify_eq; eauto.
  - destruct (Z.leb_spec 0 i); simpl; [|eauto].
    destruct (Z.ltb_spec i (Z.of_nat (length g))); [lia|eauto].
Qed.

Lemma delete_service_valid st g i :
  canonical st = Some g → 0 ≤ i < Z.of_nat (length g) →
  ∃ st', handle_delete_service i st = (st', ServiceDeleted) ∧
         canonical st' = Some (delete (Z.to_nat i) g) ∧
         working_copies st' = delete i (working_copies st) ∧
         original_statuses st' = original_statuses st.
Proof.
  intros Hg Hi. unfold handle_delete_service. rewrite Hg.
  destruct (py_getitem_valid g i) as [x ->]; [lia|].
  destruct (Z.leb_spec 0 i); [|lia].
  destruct (Z.ltb_spec i (Z.of_nat (length g))); [|lia]. simpl.
  unfold py_pop. rewrite py_index_valid by done.
  eexists; split; [done|]. split_and!.
  - by apply (canonical_store_global _ g).
  - done.
  - unfold store_global. by destruct (global_statuses st).
Qed.
End delete_service.

Section validation.
Implicit Types (values : ViewValues) (ub : UpdateBlocks) (errors : Errors).

Lemma insert_keeps_entry errors (b k : string) (m : ErrorMsg) :
  is_Some (errors !! k) → is_Some (<[b := m]> errors !! k).
Proof. rewrite lookup_insert_is_Some. destruct (decide (b = k)); auto. Qed.

Lemma insert_has_entry errors (b : string) (m : ErrorMsg) :
  is_Some (<[b := m]> errors !! b).
Proof. rewrite lookup_insert_eq. eauto. Qed.

Local Hint Resolve insert_keeps_entry insert_has_entry : core.

(** The loop only ever adds entries. *)
Lemma process_updates_keeps values ub idxs : ∀ errors acc errors' acc',
  process_updates values ub idxs errors acc = inr (errors', acc') →
  ∀ k, is_Some (errors !! k) → is_Some (errors' !! k).
Proof.
  induction idxs as [|idx idxs IH]; intros errors acc errors' acc' H k Hk;
    simpl in H; [by simplify_eq|].
  unfold mbind, exn_bind in H.
  repeat (case_match; simplify_eq; try done); eapply IH; eauto.
Qed.

Lemma process_updates_date values ub idx b d idxs : ∀ errors acc errors' acc',
  process_updates values ub idxs errors acc = inr (errors', acc') →
  idx ∈ idxs →
  update_blocks ub !! idx = Some b →
  is_Some (update_details_blocks ub !! idx) →
  input_value values b "update_date_input" = inr d →
  validate_date_format d ≠ None →
  is_Some (errors' !! b).
Proof.
  induction idxs as [|idx' idxs IH];
    intros errors acc errors' acc' H Hin Hb [bd Hd] Hv Hbad; [by inv Hin|].
  apply elem_of_cons in Hin as [<-|Hin].
  - simpl in H. rewrite Hd, Hb in H. unfold mbind, exn_bind in H. rewrite Hv in H.
    case_match; [done|].
    destruct (validate_date_format d) as [m|]; [|done].
    eapply process_updates_keeps; eauto.
  - simpl in H. unfold mbind, exn_bind in H.
    repeat (case_match; simplify_eq; try done); eapply IH; eauto.
Qed.

Lemma process_updates_url values ub idx b d bu u idxs : ∀ errors acc errors' acc',
  process_updates values ub idxs errors acc = inr (errors', acc') →
  idx ∈ idxs →
  update_blocks ub !! idx = Some b →
  is_Some (update_details_blocks ub !! idx) →
  input_value values b "update_date_input" = inr d →
  validate_date_format d = None →
  update_url_blocks ub !! idx = Some bu →
  input_value values bu "update_url_input" = inr u →
  validate_url u ≠ None →
  is_Some (errors' !! bu).
Proof.
  induction idxs as [|idx' idxs IH];
    intros errors acc errors' acc' H Hin Hb [bd Hd] Hv Hok Hbu Hu Hbad;
    [by inv Hin|].
  apply elem_of_cons in Hin as [<-|Hin].
  - simpl in H. rewrite Hd, Hb in H. unfold mbind, exn_bind in H.
    rewrite Hv in H. case_match; [done|].
    rewrite Hok, Hbu, Hu in H.
    destruct u as [|c u]; [done|].
    destruct (validate_url (String c u)) as [m|]; [|done].
    eapply process_updates_keeps; eauto.
  - simpl in H. unfold mbind, exn_bind in H.
    repeat (case_match; simplify_eq; try done); eapply IH; eauto.
Qed.

Lemma elem_of_sorted_keys (m : gmap string string) idx :
  idx ∈ sorted_keys m ↔ is_Some (m !! idx).
Proof.
  unfold sorted_keys. rewrite merge_sort_Permutation, elem_of_elements.
  apply elem_of_dom.
Qed.

Lemma truthy_Some b x : truthy b = Some x → b = Some x.
Proof. destruct b as [[|]|]; naive_solver. Qed.

(** What [validate_form] went through when it did not raise. *)
Lemma validate_form_inv values errors r :
  validate_form values = inr (errors, r) →
  ∃ name_block date_block summary_block errors0 errors1,
    service_name_block (find_form_blocks values) = Some name_block ∧
    service_date_block (find_form_blocks values) = Some date_block ∧
    service_summary_block (find_form_blocks values) = Some summary_block ∧
    errors0 = match validate_date_format (date r) with
              | Some error_msg => {[ date_block := error_msg ]}
              | None => ∅
              end ∧
    process_updates values (find_update_blocks values)
      (sorted_keys (update_blocks (find_update_blocks values))) errors0 []
      = inr (errors1, updates r) ∧
    (∀ k, is_Some (errors1 !! k) → is_Some (errors !! k)) ∧
    (updates r = [] → is_Some (errors !! summary_block)) ∧
    (affectedServices r = EmptyString → is_Some (errors !! name_block)) ∧
    (summary r = EmptyString → is_Some (errors !! summary_block)).
Proof.
  unfold validate_form. intros H.
  destruct (truthy (service_name_block _)) as [nb|] eqn:Hnb; [|done].
  destruct (truthy (service_status_block _)) as [sb|] eqn:Hsb; [|done].
  destruct (truthy (service_date_block _)) as [db|] eqn:Hdb; [|done].
  destruct (truthy (service_summary_block _)) as [mb|] eqn:Hmb; [|done].
  apply truthy_Some in Hnb, Hdb, Hmb.
  unfold mbind, exn_bind in H.
  destruct (input_value values nb _) as [|name]; [done|].
  destruct (selected_text values sb _) as [|st]; [done|].
  destruct (input_value values db _) as [|d]; [done|].
  destruct (input_value values mb _) as [|summ]; [done|].
  destruct (process_updates _ _ _ _ _) as [|[errors1 ups]] eqn:Hp; [done|].
  injection H as <- <-. simpl.
  exists nb, db, mb. eexists _, errors1. split_and!; try done.
  - intros k Hk. destruct ups, name, summ; eauto.
  - intros ->. destruct name, summ; eauto.
  - intros ->. destruct ups, summ; eauto.
  - intros ->. destruct ups; eauto.
Qed.
End validation.

Section drafts.
(** Editing a working copy touches neither list. *)
Lemma run_draft_op_frame key op st :
  heap (run_draft_op key op st) = heap st ∧
  global_statuses (run_draft_op key op st) = global_statuses st ∧
  original_statuses (run_draft_op key op st) = original_statuses st.
Proof.
  destruct op as [body|j]; simpl.
  - unfold handle_add_update. by repeat case_match.
  - unfold handle_delete_update. by repeat case_match.
Qed.

Lemma run_draft_ops_frame key ops : ∀ st,
  heap (run_draft_ops key ops st) = heap st ∧
  global_statuses (run_draft_ops key ops st) = global_statuses st ∧
  original_statuses (run_draft_ops key ops st) = original_statuses st.
Proof.
  unfold run_draft_ops.
  induction ops as [|op ops IH]; intros st; simpl; [done|].
  destruct (IH (run_draft_op key op st)) as (-> & -> & ->).
  apply run_draft_op_frame.
Qed.

Lemma run_draft_ops_lists key ops st :
  canonical (run_draft_ops key ops st) = canonical st ∧
  baseline (run_draft_ops key ops st) = baseline st.
Proof.
  unfold canonical, baseline, deref.
  by destruct (run_draft_ops_frame key ops st) as (-> & -> & ->).
Qed.

(** Saving the record the baseline has at that place, into a list that
    differs from the baseline at most there, ends with equal lists. *)
Lemma edit_submission_revert st g o key k values r :
  canonical st = Some g → baseline st = Some o →
  length g = length o →
  py_index key (length g) = Some k →
  o !! k = Some r →
  (∀ j, j ≠ k → g !! j = o !! j) →
  validate_form values = inr (∅, r) →
  has_changes (handle_edit_service_submission key values st).1 = false.
Proof.
  intros Hg Ho Hlen Hk Hr Hrest Hv.
  unfold handle_edit_service_submission, py_setitem. rewrite Hv, Hg, Hk.
  rewrite decide_True by done. simpl.
  rewrite has_changes_set_working_copies, has_changes_set_flag.
  assert (<[k := r]> g = o) as Hgo.
  { apply list_eq. intros j. destruct (decide (j = k)) as [->|Hj].
    - rewrite list_lookup_insert_eq by (by eapply py_index_lt). done.
    - rewrite list_lookup_insert_ne by done. auto. }
  rewrite Hgo.
  pose proof (canonical_store_global st g o Hg) as Hc.
  destruct (decide (global_statuses st = original_statuses st)) as [Heq|Hne].
  - apply (has_changes_false_iff _ o o); [done| |done].
    assert (baseline (store_global o st) = canonical (store_global o st)) as ->; [|done].
    unfold baseline, canonical, store_global, deref.
    destruct st as [h [l|] [l'|] f w]; simplify_eq/=; done.
  - apply (has_changes_false_iff _ o o); [done| |done].
    by rewrite baseline_store_global.
Qed.
End drafts.

Section submissions.
Lemma edit_submission_overwrites st g key values r :
  canonical st = Some g → 0 ≤ key < Z.of_nat (length g) →
  validate_form values = inr (∅, r) →
  ∃ st', handle_edit_service_submission key values st = (st', Acknowledged) ∧
         canonical st' = Some (<[Z.to_nat key := r]> g) ∧
         working_copies st' = delete key (working_copies st).
Proof.
  intros Hg Hk Hv. unfold handle_edit_service_submission, py_setitem.
  rewrite Hv, Hg, py_index_valid by done. rewrite decide_True by done.
  eexists. split_and!; [done| |done].
  by apply (canonical_store_global _ g).
Qed.

(** With -1 the assignment addresses the last service. *)
Lemma edit_submission_sentinel st g values r :
  canonical st = Some g → g ≠ [] →
  validate_form values = inr (∅, r) →
  ∃ st', handle_edit_service_submission (-1) values st = (st', Acknowledged) ∧
         canonical st' = Some (<[(length g - 1)%nat := r]> g).
Proof.
  intros Hg Hne Hv. unfold handle_edit_service_submission, py_setitem.
  assert (0 < length g)%nat by (destruct g; [done|simpl; lia]).
  rewrite Hv, Hg, py_index_negative by lia. rewrite decide_True by done.
  eexists. split; [done|].
  replace (Z.to_nat (-1 + Z.of_nat (length g))) with (length g - 1)%nat by lia.
  by apply (canonical_store_global _ g).
Qed.

Lemma add_submission_appends st g values r :
  canonical st = Some g →
  validate_form values = inr (∅, r) →
  ∃ st', handle_add_service_submission values st = (st', Acknowledged) ∧
         canonical st' = Some (g ++ [r]) ∧
         working_copies st' = delete (-1) (working_copies st).
Proof.
  intros Hg Hv. unfold handle_add_service_submission.
  rewrite Hv, Hg. rewrite decide_True by done.
  eexists. split_and!; [done| |done].
  by apply (canonical_store_global _ g).
Qed.
End submissions.

Section delete_update.
Lemma delete_update_in_range st key wc j :
  working_copies st !! key = Some wc →
  0 ≤ j < Z.of_nat (length (updates wc)) →
  handle_delete_update key j st =
    (set_working_copies
       (<[key := set_updates (delete (Z.to_nat j) (updates wc)) wc]>
          (working_copies st)) st,
     UpdateDeleted
       {| callback_id := edit_service_modal; private_metadata := key;
          shown := set_updates (delete (Z.to_nat j) (updates wc)) wc |}).
Proof.
  intros Hw Hj. unfold handle_delete_update, get_or_create_working_copy, py_pop.
  rewrite Hw. destruct (Z.ltb_spec j (Z.of_nat (length (updates wc)))); [|lia].
  by rewrite py_index_valid.
Qed.

Lemma delete_update_beyond st key wc j :
  working_copies st !! key = Some wc →
  Z.of_nat (length (updates wc)) ≤ j →
  handle_delete_update key j st = (st, UpdateNotFound j (length (updates wc))).
Proof.
  intros Hw Hj. unfold handle_delete_update, get_or_create_working_copy.
  rewrite Hw. by destruct (Z.ltb_spec j (Z.of_nat (length (updates wc)))); [lia|].
Qed.

(** A negative index within reach of the length is taken from the end. *)
Lemma delete_update_from_end st key wc j :
  working_copies st !! key = Some wc →
  - Z.of_nat (length (updates wc)) ≤ j < 0 →
  handle_delete_update key j st =
    (set_working_copies
       (<[key := set_updates
                   (delete (Z.to_nat (j + Z.of_nat (length (updates wc))))
                      (updates wc)) wc]>
          (working_copies st)) st,
     UpdateDeleted
       {| callback_id := edit_service_modal; private_metadata := key;
          shown := set_updates
                     (delete (Z.to_nat (j + Z.of_nat (length (updates wc))))
                        (updates wc)) wc |}).
Proof.
  intros Hw Hj. unfold handle_delete_update, get_or_create_working_copy, py_pop.
  rewrite Hw. destruct (Z.ltb_spec j (Z.of_nat (length (updates wc)))); [|lia].
  by rewrite py_index_negative.
Qed.
End delete_update.

(** * The claims *)

(** C1: after a submission that GitHub accepted, [has_changes] should be
    false.  It is not: the handler resets [has_unsaved_changes], which
    nothing reads, and leaves [original_statuses] as it was.  Here a service
    is loaded, saved as resolved and submitted; the two requests go out,
    GitHub answers 200, and the comparison still reports changes. *)
Theorem submit_changes_leaves_changes :
  let '(st', out, calls) := handle_submit_changes Sample.github_ok Sample.edited in
  out = ChangesSubmitted ∧
  calls = [GithubGet; GithubPut [Sample.api_resolved]] ∧
  canonical st' = Some [Sample.api_resolved] ∧
  baseline st' = Some [Sample.api_down] ∧
  has_unsaved_changes st' = false ∧
  has_changes st' = true.
Proof. vm_compute. by split_and!. Qed.

(** C2: when the checks of a submission leave at least one entry in the
    violation map, neither submission handler changes the state (the list
    of services and every working copy stay as they were) and the caller
    gets the violation map as the answer. *)
Theorem submission_with_violations_changes_nothing key values st errors r :
  validate_form values = inr (errors, r) →
  errors ≠ ∅ →
  handle_edit_service_submission key values st = (st, ResponseErrors errors) ∧
  handle_add_service_submission values st = (st, ResponseErrors errors).
Proof.
  intros Hv Hne. unfold handle_edit_service_submission, handle_add_service_submission.
  rewrite Hv. destruct (decide (errors = ∅)); [done|]. by split.
Qed.

Lemma submission_with_violations_witness :
  handle_edit_service_submission 0 Sample.form_bad_date Sample.edited
    = (Sample.edited, ResponseErrors {[ "service_date_17" := DateFormatError ]}) ∧
  handle_add_service_submission Sample.form_bad_date Sample.edited
    = (Sample.edited, ResponseErrors {[ "service_date_17" := DateFormatError ]}).
Proof.
  apply (submission_with_violations_changes_nothing 0 Sample.form_bad_date
           Sample.edited {[ "service_date_17" := DateFormatError ]}
           {| status := "Resolved"; affectedServices := "API"; summary := "outage";
              date := "20 May 2024"; updates := [Sample.ongoing] |}).
  - vm_compute. reflexivity.
  - vm_compute. discriminate.
Defined.

(** C3, as stated, fails: an update without details passes, and the link
    of an update whose date is rejected is not looked at. *)
Lemma validation_skips_details_and_url :
  (input_value Sample.form_no_details "update_0_details_17" "update_details_input"
     = inr EmptyString ∧
   validate_form Sample.form_no_details =
     inr (∅, {| status := "Resolved"; affectedServices := "API"; summary := "outage";
                date := "2024-05-20T10:00";
                updates := [ {| u_date := "2024-05-20T10:00";
                                u_details := EmptyString; u_url := None |} ] |})) ∧
  (input_value Sample.form_bad_update "update_1_url_17" "update_url_input"
     = inr "see wiki" ∧
   validate_url "see wiki" = Some InvalidUrl ∧
   ∃ errors r, validate_form Sample.form_bad_update = inr (errors, r) ∧
               errors !! "update_1_url_17" = None).
Proof.
  split_and!; try (vm_compute; reflexivity).
  eexists _, _. split; vm_compute; reflexivity.
Qed.

(** C3, amended: the checks collect their violations by block.  Whenever
    they run to the end, the violation map has an entry for the date block
    if the date of the service is not valid, for the name block if the name
    is empty, for the summary block if the summary is empty or no update
    was accepted, for the date block of every update (one with a date and a
    details block) whose date is not valid, and for the link block of every
    update whose date is valid and whose link is neither empty nor valid. *)
Theorem validate_form_reports values errors r :
  validate_form values = inr (errors, r) →
  let fb := find_form_blocks values in
  let ub := find_update_blocks values in
  (validate_date_format (date r) ≠ None →
     ∃ b, service_date_block fb = Some b ∧ is_Some (errors !! b)) ∧
  (affectedServices r = EmptyString →
     ∃ b, service_name_block fb = Some b ∧ is_Some (errors !! b)) ∧
  (summary r = EmptyString ∨ updates r = [] →
     ∃ b, service_summary_block fb = Some b ∧ is_Some (errors !! b)) ∧
  (∀ idx b d,
     update_blocks ub !! idx = Some b →
     is_Some (update_details_blocks ub !! idx) →
     input_value values b "update_date_input" = inr d →
     validate_date_format d ≠ None →
     is_Some (errors !! b)) ∧
  (∀ idx b d bu u,
     update_blocks ub !! idx = Some b →
     is_Some (update_details_blocks ub !! idx) →
     input_value values b "update_date_input" = inr d →
     validate_date_format d = None →
     update_url_blocks ub !! idx = Some bu →
     input_value values bu "update_url_input" = inr u →
     validate_url u ≠ None →
     is_Some (errors !! bu)).
Proof.
  intros (nb & db & mb & e0 & e1 & Hnb & Hdb & Hmb & He0 & Hp & Hkeep & Hup & Hname & Hsum)
    %validate_form_inv; simpl.
  split_and!.
  - intros Hbad. exists db. split; [done|]. apply Hkeep.
    eapply process_updates_keeps; [done|]. rewrite He0.
    destruct (validate_date_format (date r)); [|done].
    rewrite lookup_singleton_eq. eauto.
  - eauto.
  - intros [?|?]; eauto.
  - intros idx b d Hb Hd Hv Hbad. apply Hkeep.
    eapply process_updates_date; eauto. apply elem_of_sorted_keys. eauto.
  - intros idx b d bu u Hb Hd Hv Hok Hbu Hu Hbad. apply Hkeep.
    eapply process_updates_url; eauto. apply elem_of_sorted_keys. eauto.
Qed.

Lemma validate_form_reports_witness :
  (∃ b, service_date_block (find_form_blocks Sample.form_bad_date) = Some b ∧
        is_Some (({[ "service_date_17" := DateFormatError ]} : Errors) !! b)) ∧
  is_Some (({[ "update_1_date_17" := DateFormatError ]} : Errors) !! "update_1_date_17").
Proof.
  split.
  - apply (validate_form_reports Sample.form_bad_date
             {[ "service_date_17" := DateFormatError ]}
             {| status := "Resolved"; affectedServices := "API"; summary := "outage";
                date := "20 May 2024"; updates := [Sample.ongoing] |}).
    + vm_compute. reflexivity.
    + vm_compute. discriminate.
  - apply (validate_form_reports Sample.form_bad_update
             {[ "update_1_date_17" := DateFormatError ]}
             {| status := "Resolved"; affectedServices := "API"; summary := "outage";
                date := "2024-05-20T10:00"; updates := [Sample.ongoing] |})
      with (idx := "1") (d := "tomorrow").
    + vm_compute. reflexivity.
    + vm_compute. reflexivity.
    + vm_compute. eauto.
    + vm_compute. reflexivity.
    + vm_compute. discriminate.
Defined.

(** C4: a service saved with the values it already has should leave
    [has_changes] false.  With eleven updates it does not: the Edit button
    shows the stored service, the form as [create_service_detail_blocks]
    lays it out carries, update by update, the values of the record, and
    its submission is accepted; but the loop over
    [sorted(update_blocks.keys())] compares the numbers as texts, so the
    eleventh update is stored third, and [has_changes] turns true although
    no field was touched. *)
Theorem unchanged_save_reorders_updates :
  let form := create_service_detail_blocks long_running "1718000000" in
  has_changes loaded_long = false ∧
  show_service_details (Some "V1") FetchRequestException 0 loaded_long =
    (loaded_long,
     inr {| callback_id := edit_service_modal; private_metadata := 0;
            shown := long_running |}) ∧
  (λ j, accepted_update form (find_update_blocks form) (str j)) <$> seq 0 11
    = Some <$> updates long_running ∧
  ∃ st',
    handle_edit_service_submission 0 form loaded_long = (st', Acknowledged) ∧
    canonical st' =
      Some [set_updates
              [ progress "01" "d0"; progress "02" "d1"; progress "11" "d10";
                progress "03" "d2"; progress "04" "d3"; progress "05" "d4";
                progress "06" "d5"; progress "07" "d6"; progress "08" "d7";
                progress "09" "d8"; progress "10" "d9" ]
              long_running] ∧
    baseline st' = Some [long_running] ∧
    has_changes st' = true.
Proof.
  cbv zeta. split_and!; try (vm_compute; reflexivity).
  eexists. split_and!; vm_compute; reflexivity.
Qed.

(** C5: with the list of services loaded, [handle_delete_service] on an
    index that is no position of the list changes nothing and reports the
    index as out of range; on a position of the list it makes the list one
    shorter, keeps the services before it, moves every later service down
    by one place, and drops the working copy of that index. *)
Theorem delete_service_spec st g i :
  canonical st = Some g →
  (¬ (0 ≤ i < Z.of_nat (length g)) →
     ∃ out, handle_delete_service i st = (st, out) ∧
            reports_out_of_range i (length g) out) ∧
  (0 ≤ i < Z.of_nat (length g) →
     ∃ st' g',
       handle_delete_service i st = (st', ServiceDeleted) ∧
       canonical st' = Some g' ∧
       S (length g') = length g ∧
       (∀ j, (j < Z.to_nat i)%nat → g' !! j = g !! j) ∧
       (∀ j, (Z.to_nat i < j)%nat → g' !! (j - 1)%nat = g !! j) ∧
       working_copies st' !! i = None).
Proof.
  intros Hg. split; [by apply delete_service_invalid|].
  intros Hi.
  destruct (delete_service_valid st g i Hg Hi) as (st' & Hrun & Hc & Hw & _).
  exists st', (delete (Z.to_nat i) g). split_and!; try done.
  - rewrite length_delete by (apply lookup_lt_is_Some; lia). lia.
  - intros j Hj. by apply list_lookup_delete_lt.
  - intros j Hj. rewrite list_lookup_delete_ge by lia. f_equal. lia.
  - rewrite Hw. apply lookup_delete_eq.
Qed.

Lemma delete_service_spec_witness :
  (∃ out, handle_delete_service 2 Sample.loaded2 = (Sample.loaded2, out) ∧
          reports_out_of_range 2 2 out) ∧
  (∃ st' g',
     handle_delete_service 0 Sample.loaded2 = (st', ServiceDeleted) ∧
     canonical st' = Some g' ∧
     S (length g') = 2%nat ∧
     (∀ j, (j < Z.to_nat 0)%nat → g' !! j = [Sample.api_down; Sample.ftp_at_risk] !! j) ∧
     (∀ j, (Z.to_nat 0 < j)%nat →
           g' !! (j - 1)%nat = [Sample.api_down; Sample.ftp_at_risk] !! j) ∧
     working_copies st' !! 0 = None).
Proof.
  split.
  - apply (delete_service_spec Sample.loaded2 [Sample.api_down; Sample.ftp_at_risk] 2).
    + reflexivity.
    + simpl. lia.
  - apply (delete_service_spec Sample.loaded2 [Sample.api_down; Sample.ftp_at_risk] 0).
    + reflexivity.
    + simpl. lia.
Defined.

(** C6: [handle_delete_update] on the working copy of a service (the one
    in [working_copies], or else a copy of the stored service) and an
    update index as the Delete Update button carries it, a number from 0
    on.  An index that is no position of the updates is answered with
    Update not found and changes nothing; a position of the updates is
    removed: the working copy is one update shorter, the updates before it
    stay in place, the later ones move down by one, and nothing but this
    working copy changes. *)
Theorem delete_update_spec st key wc j :
  get_or_create_working_copy key st = inr wc →
  0 ≤ j →
  (Z.of_nat (length (updates wc)) ≤ j →
     handle_delete_update key j st =
       (st, UpdateNotFound j (length (updates wc)))) ∧
  (j < Z.of_nat (length (updates wc)) →
     ∃ st' m us',
       handle_delete_update key j st = (st', UpdateDeleted m) ∧
       working_copies st' !! key = Some (set_updates us' wc) ∧
       shown m = set_updates us' wc ∧
       S (length us') = length (updates wc) ∧
       (∀ i, (i < Z.to_nat j)%nat → us' !! i = updates wc !! i) ∧
       (∀ i, (Z.to_nat j < i)%nat → us' !! (i - 1)%nat = updates wc !! i) ∧
       canonical st' = canonical st ∧
       baseline st' = baseline st ∧
       (∀ k, k ≠ key → working_copies st' !! k = working_copies st !! k)).
Proof.
  intros Hw Hj. unfold handle_delete_update. rewrite Hw. split.
  - intros Hge.
    by destruct (Z.ltb_spec j (Z.of_nat (length (updates wc)))); [lia|].
  - intros Hlt.
    destruct (Z.ltb_spec j (Z.of_nat (length (updates wc)))); [|lia].
    unfold py_pop. rewrite py_index_valid by lia.
    eexists _, _, (delete (Z.to_nat j) (updates wc)). split_and!; try done.
    + simpl. apply lookup_insert_eq.
    + rewrite length_delete by (apply lookup_lt_is_Some; lia). lia.
    + intros i Hi. by apply list_lookup_delete_lt.
    + intros i Hi. rewrite list_lookup_delete_ge by lia. f_equal. lia.
    + intros k Hk. simpl. by apply lookup_insert_ne.
Qed.

Lemma delete_update_spec_witness :
  handle_delete_update 0 2 Sample.drafting = (Sample.drafting, UpdateNotFound 2 2) ∧
  ∃ st' m us',
    handle_delete_update 0 1 Sample.drafting = (st', UpdateDeleted m) ∧
    working_copies st' !! 0
      = Some (set_updates us' (set_updates [Sample.ongoing; new_update] Sample.api_down)) ∧
    shown m = set_updates us' (set_updates [Sample.ongoing; new_update] Sample.api_down) ∧
    S (length us') = 2%nat ∧
    (∀ i, (i < 1)%nat → us' !! i = [Sample.ongoing; new_update] !! i) ∧
    (∀ i, (1 < i)%nat → us' !! (i - 1)%nat = [Sample.ongoing; new_update] !! i) ∧
    canonical st' = canonical Sample.drafting ∧
    baseline st' = baseline Sample.drafting ∧
    (∀ k, k ≠ 0 → working_copies st' !! k = working_copies Sample.drafting !! k).
Proof.
  destruct (delete_update_spec Sample.drafting 0
              (set_updates [Sample.ongoing; new_update] Sample.api_down) 2)
    as [Hout _]; [vm_compute; reflexivity|lia|].
  destruct (delete_update_spec Sample.drafting 0
              (set_updates [Sample.ongoing; new_update] Sample.api_down) 1)
    as [_ Hin]; [vm_compute; reflexivity|lia|].
  split.
  - apply Hout. simpl. lia.
  - apply Hin. simpl. lia.
Defined.

(** C7: a new service should be appended.  After Delete Update on the form
    of a new service, the modal carries the callback id of the edit form
    and the index -1, so its submission runs
    [handle_edit_service_submission] with -1, and that assignment replaces
    the last service of the list. *)
Theorem new_service_replaces_last :
  canonical Sample.creating = Some [Sample.api_down; Sample.ftp_at_risk] ∧
  ∃ st m st',
    handle_delete_update (-1) 1 Sample.creating = (st, UpdateDeleted m) ∧
    callback_id m = edit_service_modal ∧
    private_metadata m = -1 ∧
    submit_modal m Sample.form_mail st = (st', Acknowledged) ∧
    canonical st' = Some [Sample.api_down; Sample.mail_degraded].
Proof.
  split; [reflexivity|].
  eexists _, _, _. split_and!; [vm_compute; reflexivity|done|done| |];
    vm_compute; reflexivity.
Qed.

(** C8: when the fetch succeeds, [load_status_data] makes [global_statuses]
    and [original_statuses] two separate lists with the fetched content (an
    update of the first does not reach the second), resets the flag, leaves
    [has_changes] false and returns the content; when the fetch fails, it
    returns the empty list and leaves the state, the baseline included, as
    it was.  Either way it returns. *)
Theorem load_status_data_spec :
  (∀ data st,
     let '(st', ret) := load_status_data (FetchOk data) st in
     ret = data ∧
     canonical st' = Some data ∧
     baseline st' = Some data ∧
     global_statuses st' ≠ original_statuses st' ∧
     (∀ v, canonical (store_global v st') = Some v ∧
           baseline (store_global v st') = Some data) ∧
     has_unsaved_changes st' = false ∧
     has_changes st' = false) ∧
  (∀ st, load_status_data FetchRequestException st = (st, [])).
Proof.
  split; [|done]. intros data st.
  destruct (load_ok data st) as (Hc & Hb & Hne & Hf & Hh & Hr).
  destruct (load_status_data (FetchOk data) st) as [st' ret]; simpl in *.
  split_and!; try done.
  intros v. split.
  - by apply (canonical_store_global _ data).
  - by rewrite baseline_store_global.
Qed.

(** C9: when [has_changes] is false, [handle_submit_changes] answers that
    there is nothing to submit, sends no request and leaves the state as it
    was. *)
Theorem submit_without_changes gh st :
  has_changes st = false →
  handle_submit_changes gh st = (st, NoChangesDetected, []).
Proof. apply submit_no_changes. Qed.

Lemma submit_without_changes_witness :
  handle_submit_changes Sample.github_ok Sample.loaded
    = (Sample.loaded, NoChangesDetected, []).
Proof.
  apply (submit_without_changes Sample.github_ok Sample.loaded).
  vm_compute. reflexivity.
Defined.

(** C10: while [global_statuses] or [original_statuses] is still [None],
    [has_changes] returns false, and a submission is answered with no
    changes. *)
Theorem has_changes_before_load st :
  global_statuses st = None ∨ original_statuses st = None →
  has_changes st = false ∧
  ∀ gh, handle_submit_changes gh st = (st, NoChangesDetected, []).
Proof.
  intros H%has_changes_unset. split; [done|].
  intros gh. by apply submit_no_changes.
Qed.

Lemma has_changes_before_load_witness :
  has_changes initial_state = false ∧
  ∀ gh, handle_submit_changes gh initial_state = (initial_state, NoChangesDetected, []).
Proof.
  apply (has_changes_before_load initial_state).
  left. reflexivity.
Defined.

(** * Further properties *)

Section status_data.
(** X1: once the list is loaded, [get_status_data] returns it without a
    fetch, whatever GitHub would answer; so after a first call that loaded
    the list, a second call gives the same list and leaves the state as it
    is. *)
Theorem get_status_data_cached st data fetch :
  canonical st = None →
  let st1 := (get_status_data (FetchOk data) st).1 in
  get_status_data fetch st1 = (st1, data).
Proof.
  intros Hc. simpl.
  assert (get_status_data (FetchOk data) st = load_status_data (FetchOk data) st) as ->.
  { unfold get_status_data. by rewrite Hc. }
  pose proof (load_ok data st) as H. cbv zeta in H. destruct H as (Hc1 & _).
  unfold get_status_data at 1. by rewrite Hc1.
Qed.

Lemma get_status_data_cached_witness :
  get_status_data FetchRequestException
    (get_status_data (FetchOk [Sample.api_down]) initial_state).1
  = ((get_status_data (FetchOk [Sample.api_down]) initial_state).1,
     [Sample.api_down]).
Proof.
  apply (get_status_data_cached initial_state [Sample.api_down] FetchRequestException).
  reflexivity.
Defined.
End status_data.

Section validators.
Import JsonFacts.

Lemma read_digits_split k : ∀ acc s v r,
  read_digits k acc s = Some (v, r) →
  ∃ p, s = p +:+ r ∧ String.length p = k ∧
       forallb is_digit (list_ascii_of_string p) = true ∧
       read_digits k acc p = Some (v, EmptyString).
Proof.
  induction k as [|k IH]; intros acc s v r H; simpl in H.
  - exists EmptyString. by simplify_eq.
  - destruct s as [|c s]; [done|].
    destruct (is_digit c) eqn:Hc; [|done].
    apply IH in H as (p & -> & Hlen & Hp & Hv).
    exists (String c p). simpl. rewrite Hc, Hlen. done.
Qed.

Lemma read_char_Some c s r : read_char c s = Some r → s = String c r.
Proof.
  destruct s as [|c' s]; simpl; [done|].
  destruct (Ascii.eqb_spec c c'); naive_solver.
Qed.

Lemma string_length_app (a b : string) :
  String.length (a +:+ b) = (String.length a + String.length b)%nat.
Proof. induction a as [|c a IH]; [done|]. rewrite string_app_cons. simpl. lia. Qed.

Local Arguments read_digits : simpl never.
Local Arguments read_char : simpl never.

(** X2: a date that [validate_date_format] accepts is made of four digits,
    a dash, two digits, a dash, two digits, a T, two digits, a colon and
    two digits, and of nothing else (sixteen characters), and the numbers
    are a date of the calendar and a time of the day: a year from 1, a
    month from 1 to 12, a day from 1 to the length of that month in that
    year, an hour up to 23 and a minute up to 59. *)
Theorem validate_date_format_shape date_str :
  validate_date_format date_str = None →
  String.length date_str = 16%nat ∧
  ∃ y mo d h mi ny nmo nd nh nmi,
    date_str = y +:+ "-" +:+ mo +:+ "-" +:+ d +:+ "T" +:+ h +:+ ":" +:+ mi ∧
    read_digits 4 0 y = Some (ny, EmptyString) ∧
    read_digits 2 0 mo = Some (nmo, EmptyString) ∧
    read_digits 2 0 d = Some (nd, EmptyString) ∧
    read_digits 2 0 h = Some (nh, EmptyString) ∧
    read_digits 2 0 mi = Some (nmi, EmptyString) ∧
    (1 ≤ ny ∧ 1 ≤ nmo ≤ 12 ∧ 1 ≤ nd ≤ days_in_month ny nmo ∧
     nh ≤ 23 ∧ nmi ≤ 59)%N.
Proof.
  unfold validate_date_format, match_date_pattern. intros H.
  destruct (read_digits 4 0 date_str) as [[y s1]|] eqn:E1; simpl in H; [|done].
  destruct (read_char "-" s1) as [s2|] eqn:E2; simpl in H; [|done].
  destruct (read_digits 2 0 s2) as [[mo s3]|] eqn:E3; simpl in H; [|done].
  destruct (read_char "-" s3) as [s4|] eqn:E4; simpl in H; [|done].
  destruct (read_digits 2 0 s4) as [[d s5]|] eqn:E5; simpl in H; [|done].
  destruct (read_char "T" s5) as [s6|] eqn:E6; simpl in H; [|done].
  destruct (read_digits 2 0 s6) as [[h s7]|] eqn:E7; simpl in H; [|done].
  destruct (read_char ":" s7) as [s8|] eqn:E8; simpl in H; [|done].
  destruct (read_digits 2 0 s8) as [[mi s9]|] eqn:E9; simpl in H; [|done].
  assert (s9 = EmptyString) as ->.
  { destruct s9 as [|c [|c' s9]]; [done| |done].
    destruct (Ascii.eqb c newline); [|done]. simpl in H.
    by repeat case_match. }
  assert ((1 ≤ y ∧ 1 ≤ mo ≤ 12 ∧ 1 ≤ d ≤ days_in_month y mo ∧ h ≤ 23 ∧ mi ≤ 59)%N)
    as Hrange.
  { unfold strptime_ok in H.
    destruct ((1 <=? y) && (1 <=? mo) && (mo <=? 12) && (1 <=? d) &&
              (d <=? days_in_month y mo) && (h <=? 23) && (mi <=? 59))%N eqn:E;
      [|done].
    repeat (apply andb_prop in E as [E ?]).
    repeat match goal with
           | H : (_ <=? _)%N = true |- _ => apply N.leb_le in H
           end.
    lia. }
  apply read_digits_split in E1 as (py & -> & Ly & _ & Vy).
  apply read_char_Some in E2 as ->.
  apply read_digits_split in E3 as (pmo & -> & Lmo & _ & Vmo).
  apply read_char_Some in E4 as ->.
  apply read_digits_split in E5 as (pd & -> & Ld & _ & Vd).
  apply read_char_Some in E6 as ->.
  apply read_digits_split in E7 as (ph & -> & Lh & _ & Vh).
  apply read_char_Some in E8 as ->.
  apply read_digits_split in E9 as (pmi & -> & Lmi & _ & Vmi).
  rewrite string_app_nil_r. split.
  - repeat (rewrite string_length_app; simpl). lia.
  - exists py, pmo, pd, ph, pmi, y, mo, d, h, mi. split_and!; try done; lia.
Qed.

Lemma validate_date_format_shape_witness :
  String.length "2024-02-29T14:30" = 16%nat ∧
  ∃ y mo d h mi ny nmo nd nh nmi,
    "2024-02-29T14:30" = y +:+ "-" +:+ mo +:+ "-" +:+ d +:+ "T" +:+ h +:+ ":" +:+ mi ∧
    read_digits 4 0 y = Some (ny, EmptyString) ∧
    read_digits 2 0 mo = Some (nmo, EmptyString) ∧
    read_digits 2 0 d = Some (nd, EmptyString) ∧
    read_digits 2 0 h = Some (nh, EmptyString) ∧
    read_digits 2 0 mi = Some (nmi, EmptyString) ∧
    (1 ≤ ny ∧ 1 ≤ nmo ≤ 12 ∧ 1 ≤ nd ≤ days_in_month ny nmo ∧
     nh ≤ 23 ∧ nmi ≤ 59)%N.
Proof.
  apply (validate_date_format_shape "2024-02-29T14:30").
  vm_compute. reflexivity.
Defined.
End validators.

Section urls.
Import JsonFacts.

Lemma strip_prefix_Some p : ∀ s r, strip_prefix p s = Some r ↔ s = p +:+ r.
Proof.
  induction p as [|c p IH]; intros s r; simpl.
  - rewrite string_app_nil. split; congruence.
  - rewrite string_app_cons. destruct s as [|c' s]; [split; discriminate|].
    destruct (Ascii.eqb_spec c c') as [->|Hne].
    + rewrite IH. split; congruence.
    + split; congruence.
Qed.

Lemma strip_prefix_app p s r t :
  strip_prefix p s = Some r → strip_prefix p (s +:+ t) = Some (r +:+ t).
Proof.
  rewrite !strip_prefix_Some. intros ->. by rewrite string_app_assoc.
Qed.

Lemma url_unit_app r t : url_unit r = true → url_unit (r +:+ t) = true.
Proof.
  destruct r as [|c r]; [done|]. rewrite string_app_cons. simpl.
  destruct (Ascii.eqb c "-" || is_word_char c || Ascii.eqb c "."); [done|].
  destruct (Ascii.eqb c "%"); [|done].
  destruct r as [|a [|b r]]; try done.
Qed.

Local Arguments strip_prefix : simpl never.

Lemma match_url_pattern_app url t :
  match_url_pattern url = true → match_url_pattern (url +:+ t) = true.
Proof.
  unfold match_url_pattern.
  destruct (strip_prefix "http" url) as [r|] eqn:E; [|done].
  rewrite (strip_prefix_app _ _ _ t E).
  destruct r as [|c r].
  - simpl. intros [=].
  - rewrite string_app_cons. unfold read_char.
    destruct (Ascii.eqb "s" c).
    + destruct (strip_prefix "://" r) as [rest|] eqn:E'; [|done].
      rewrite (strip_prefix_app _ _ _ t E'). apply url_unit_app.
    + destruct (strip_prefix "://" (String c r)) as [rest|] eqn:E'; [|done].
      apply (strip_prefix_app _ _ _ t) in E'. rewrite string_app_cons in E'.
      rewrite E'. apply url_unit_app.
Qed.

(** X3: [validate_url] looks at the front of the text only.  A text it
    accepts is empty or starts with http:// or https://, and a non-empty
    text it accepts stays accepted whatever is appended to it. *)
Theorem validate_url_prefix url :
  validate_url url = None →
  (url = EmptyString ∨ (∃ r, url = "http://" +:+ r) ∨ (∃ r, url = "https://" +:+ r)) ∧
  (url ≠ EmptyString → ∀ t, validate_url (url +:+ t) = None).
Proof.
  intros H. split.
  - destruct url as [|c u]; [by left|right].
    unfold validate_url in H.
    destruct (match_url_pattern (String c u)) eqn:E; [|done].
    unfold match_url_pattern in E.
    destruct (strip_prefix "http" (String c u)) as [r|] eqn:E1; [|done].
    apply strip_prefix_Some in E1 as ->.
    destruct (read_char "s" r) as [r'|] eqn:E2.
    + apply read_char_Some in E2 as ->.
      destruct (strip_prefix "://" r') as [rest|] eqn:E3; [|done].
      apply strip_prefix_Some in E3 as ->. right. by exists rest.
    + destruct (strip_prefix "://" r) as [rest|] eqn:E3; [|done].
      apply strip_prefix_Some in E3 as ->. left. by exists rest.
  - intros Hne t. destruct url as [|c u]; [done|].
    unfold validate_url in *. rewrite string_app_cons.
    destruct (match_url_pattern (String c u)) eqn:E; [|done].
    apply (match_url_pattern_app _ t) in E. rewrite string_app_cons in E.
    by rewrite E.
Qed.

Lemma validate_url_prefix_witness :
  ("https://status.example.org" = EmptyString ∨
   (∃ r, "https://status.example.org" = "http://" +:+ r) ∨
   (∃ r, "https://status.example.org" = "https://" +:+ r)) ∧
  ("https://status.example.org" ≠ EmptyString →
   ∀ t, validate_url ("https://status.example.org" +:+ t) = None).
Proof.
  apply (validate_url_prefix "https://status.example.org").
  vm_compute. reflexivity.
Defined.
End urls.

Section stored_records.
Implicit Types (values : ViewValues) (ub : UpdateBlocks) (errors : Errors).

(** The loop appends what [accepted_update] gives, number by number. *)
Lemma process_updates_appends values ub idxs : ∀ errors acc errors' acc',
  process_updates values ub idxs errors acc = inr (errors', acc') →
  acc' = acc ++ omap (accepted_update values ub) idxs.
Proof.
  induction idxs as [|idx idxs IH]; intros errors acc errors' acc' H; simpl in H.
  - simplify_eq. by rewrite app_nil_r.
  - simpl. unfold accepted_update. unfold mbind, exn_bind in H.
    repeat (case_match; simplify_eq; try done);
      apply IH in H as ->; by rewrite <-?app_assoc.
Qed.

Lemma accepted_update_valid values ub idx u :
  accepted_update values ub idx = Some u → valid_update u.
Proof.
  unfold accepted_update, valid_update. intros H.
  repeat (case_match; simplify_eq; try done); simpl; by eauto.
Qed.

Lemma validate_form_updates values errors r :
  validate_form values = inr (errors, r) →
  updates r = omap (accepted_update values (find_update_blocks values))
                (sorted_keys (update_blocks (find_update_blocks values))).
Proof.
  intros (nb & db & mb & e0 & e1 & _ & _ & _ & _ & Hp & _)%validate_form_inv.
  by apply process_updates_appends in Hp.
Qed.

Lemma validate_form_valid values r :
  validate_form values = inr (∅, r) → valid_service r.
Proof.
  intros H. pose proof (validate_form_updates _ _ _ H) as Hu.
  apply validate_form_inv in H
    as (nb & db & mb & e0 & e1 & _ & _ & _ & He0 & Hp & Hkeep & Hup & Hname & Hsum).
  assert (∀ k, ¬ is_Some ((∅ : Errors) !! k)) as Hno.
  { intros k. rewrite lookup_empty. by intros [? ?]. }
  unfold valid_service. split_and!.
  - destruct (validate_date_format (date r)) as [m|] eqn:E; [|done].
    exfalso. apply (Hno db), Hkeep.
    eapply process_updates_keeps; [done|]. rewrite He0, lookup_singleton_eq. eauto.
  - intros E. by apply (Hno nb), Hname.
  - intros E. by apply (Hno mb), Hsum.
  - intros E. by apply (Hno mb), Hup.
  - rewrite Hu. apply Forall_forall. intros u (idx & _ & Hidx)%list_elem_of_omap.
    by eapply accepted_update_valid.
Qed.

(** X4: a record that a submission handler stores has passed every check
    the handlers make: its date is valid, its name and summary are not
    empty, it has at least one update, and each update has a valid date and
    either no link or a non-empty link that [validate_url] accepts.  The
    edit handler stores it at the addressed place, the add handler at the
    end. *)
Theorem stored_record_is_valid values st st' :
  (∀ service_index,
     handle_edit_service_submission service_index values st = (st', Acknowledged) →
     ∃ g k r, canonical st = Some g ∧ py_index service_index (length g) = Some k ∧
              canonical st' = Some (<[k := r]> g) ∧ valid_service r) ∧
  (handle_add_service_submission values st = (st', Acknowledged) →
     ∃ g r, canonical st = Some g ∧ canonical st' = Some (g ++ [r]) ∧
            valid_service r).
Proof.
  split.
  - intros key H. unfold handle_edit_service_submission, py_setitem in H.
    destruct (validate_form values) as [|[errors r]] eqn:Hv; [by simplify_eq|].
    destruct (decide (errors = ∅)) as [->|]; [|by simplify_eq].
    destruct (canonical st) as [g|] eqn:Hg; [|by simplify_eq].
    destruct (py_index key (length g)) as [k|] eqn:Hk; [|by simplify_eq].
    simplify_eq. exists g, k, r. split_and!; try done.
    + by apply (canonical_store_global _ g).
    + by apply (validate_form_valid values).
  - intros H. unfold handle_add_service_submission in H.
    destruct (validate_form values) as [|[errors r]] eqn:Hv; [by simplify_eq|].
    destruct (decide (errors = ∅)) as [->|]; [|by simplify_eq].
    destruct (canonical st) as [g|] eqn:Hg; [|by simplify_eq].
    simplify_eq. exists g, r. split_and!; try done.
    + by apply (canonical_store_global _ g).
    + by apply (validate_form_valid values).
Qed.

Lemma stored_record_is_valid_witness :
  (∃ g k r, canonical Sample.loaded = Some g ∧
            py_index 0 (length g) = Some k ∧
            canonical Sample.edited = Some (<[k := r]> g) ∧ valid_service r) ∧
  (∃ g r, canonical Sample.loaded = Some g ∧
          canonical (handle_add_service_submission Sample.form_mail Sample.loaded).1
            = Some (g ++ [r]) ∧
          valid_service r).
Proof.
  split.
  - apply (stored_record_is_valid (Sample.form_api "Resolved") Sample.loaded
             Sample.edited).
    vm_compute. reflexivity.
  - apply (stored_record_is_valid Sample.form_mail Sample.loaded
             (handle_add_service_submission Sample.form_mail Sample.loaded).1).
    vm_compute. reflexivity.
Defined.

(** X5: the updates of the record built from a form are the accepted ones
    in the order of their block numbers compared as texts, not as numbers:
    the numbers come out of [sorted] over the keys of a dictionary of
    texts, so update 10 is stored before update 2. *)
Theorem updates_in_text_order values errors r :
  validate_form values = inr (errors, r) →
  let ub := find_update_blocks values in
  updates r = omap (accepted_update values ub) (sorted_keys (update_blocks ub)) ∧
  Sorted String.le (sorted_keys (update_blocks ub)) ∧
  (∀ idx, idx ∈ sorted_keys (update_blocks ub) ↔ is_Some (update_blocks ub !! idx)).
Proof.
  intros H. simpl. split_and!.
  - by eapply validate_form_updates.
  - unfold sorted_keys. apply Sorted_merge_sort. apply _.
  - apply elem_of_sorted_keys.
Qed.

Lemma updates_in_text_order_witness :
  sorted_keys (update_blocks (find_update_blocks form_two_and_ten)) = ["10"; "2"] ∧
  ∃ errors r,
    validate_form form_two_and_ten = inr (errors, r) ∧
    u_details <$> updates r = ["eleventh"; "third"] ∧
    updates r = omap (accepted_update form_two_and_ten
                        (find_update_blocks form_two_and_ten))
                  (sorted_keys (update_blocks (find_update_blocks form_two_and_ten))).
Proof.
  split; [vm_compute; reflexivity|].
  eexists _, _. split; [vm_compute; reflexivity|]. split; [reflexivity|].
  apply (updates_in_text_order form_two_and_ten ∅).
  vm_compute. reflexivity.
Defined.
End stored_records.

Section publishing.
(** X6: [handle_submit_changes] sends the PUT only when [has_changes] holds,
    a token is set and the GET before it was answered with 200, and what it
    sends is the current list.  Unless it reports success the state is
    left as it was; on success the PUT was answered with 200 or 201 and
    only the flag is reset. *)
Theorem submit_changes_requests gh st st' out calls :
  handle_submit_changes gh st = (st', out, calls) →
  (∀ content, GithubPut content ∈ calls →
     has_changes st = true ∧
     (∃ token, GITHUB_TOKEN gh = Some token ∧ token ≠ EmptyString) ∧
     get_file gh = HttpStatus 200 ∧
     canonical st = Some content) ∧
  (out ≠ ChangesSubmitted → st' = st) ∧
  (out = ChangesSubmitted →
     st' = set_has_unsaved_changes false st ∧
     ∃ content, calls = [GithubGet; GithubPut content] ∧
                (put_file gh content = HttpStatus 200 ∨
                 put_file gh content = HttpStatus 201)).
Proof.
  unfold handle_submit_changes. intros H.
  destruct (has_changes st); simpl in H; [|simplify_eq; split_and!; try done;
    intros ? ?%elem_of_nil; done].
  destruct (GITHUB_TOKEN gh) as [[|c token]|] eqn:Ht;
    try (simplify_eq; split_and!; try done; intros ? ?%elem_of_nil; done).
  destruct (canonical st) as [content|] eqn:Hc;
    [|simplify_eq; split_and!; try done; intros ? ?%elem_of_nil; done].
  destruct (get_file gh) as [|code] eqn:Hg.
  { simplify_eq. split_and!; try done. by intros ? ?%list_elem_of_singleton. }
  destruct (Z.eqb_spec code 200) as [->|Hne]; simpl in H.
  2: { simplify_eq. split_and!; try done. by intros ? ?%list_elem_of_singleton. }
  assert (∀ c', GithubPut c' ∈ [GithubGet; GithubPut content] → c' = content) as Hput.
  { intros c' [?|Hin%list_elem_of_singleton]%elem_of_cons; by simplify_eq. }
  destruct (put_file gh content) as [|code'] eqn:Hp.
  { simplify_eq. split_and!; try done. intros c' ->%Hput. split_and!; eauto. }
  destruct (Z.eqb_spec code' 200) as [->|Hne1]; simpl in H.
  { simplify_eq. split_and!; try done.
    - intros c' ->%Hput. split_and!; eauto.
    - intros _. split; [done|]. exists content. rewrite Hp. auto. }
  destruct (Z.eqb_spec code' 201) as [->|Hne2]; simpl in H.
  { simplify_eq. split_and!; try done.
    - intros c' ->%Hput. split_and!; eauto.
    - intros _. split; [done|]. exists content. rewrite Hp. auto. }
  simplify_eq. split_and!; try done. intros c' ->%Hput. split_and!; eauto.
Qed.

Lemma submit_changes_requests_witness :
  (∀ content, GithubPut content ∈ [GithubGet; GithubPut [Sample.api_resolved]] →
     has_changes Sample.edited = true ∧
     (∃ token, GITHUB_TOKEN Sample.github_ok = Some token ∧ token ≠ EmptyString) ∧
     get_file Sample.github_ok = HttpStatus 200 ∧
     canonical Sample.edited = Some content) ∧
  (ChangesSubmitted ≠ ChangesSubmitted →
     set_has_unsaved_changes false Sample.edited = Sample.edited) ∧
  (ChangesSubmitted = ChangesSubmitted →
     set_has_unsaved_changes false Sample.edited
       = set_has_unsaved_changes false Sample.edited ∧
     ∃ content, [GithubGet; GithubPut [Sample.api_resolved]]
                  = [GithubGet; GithubPut content] ∧
                (put_file Sample.github_ok content = HttpStatus 200 ∨
                 put_file Sample.github_ok content = HttpStatus 201)).
Proof.
  apply (submit_changes_requests Sample.github_ok Sample.edited).
  vm_compute. reflexivity.
Defined.
End publishing.

Section working_copies.
Lemma run_draft_op_others key op st k :
  k ≠ key → working_copies (run_draft_op key op st) !! k = working_copies st !! k.
Proof.
  intros Hk. destruct op as [body|j]; simpl.
  - unfold handle_add_update. repeat case_match; simpl; try done;
      by rewrite lookup_insert_ne.
  - unfold handle_delete_update. repeat case_match; simpl; try done;
      by rewrite lookup_insert_ne.
Qed.

Lemma delete_last {A} (l : list A) x : delete (length l) (l ++ [x]) = l.
Proof. induction l as [|u us IH]; simpl; [done|]. by rewrite IH. Qed.

(** X7: adding and deleting updates works on the working copy of one
    service only.  Whatever the sequence, the list of services, the
    baseline and [has_changes] stay as they are, and so does the working
    copy of every other service. *)
Theorem draft_edits_are_isolated key ops st :
  canonical (run_draft_ops key ops st) = canonical st ∧
  baseline (run_draft_ops key ops st) = baseline st ∧
  has_changes (run_draft_ops key ops st) = has_changes st ∧
  ∀ k, k ≠ key →
       working_copies (run_draft_ops key ops st) !! k = working_copies st !! k.
Proof.
  destruct (run_draft_ops_lists key ops st) as [Hc Hb]. split_and!; try done.
  - unfold has_changes. by rewrite Hc, Hb.
  - intros k Hk. clear Hc Hb. revert st. unfold run_draft_ops.
    induction ops as [|op ops IH]; intros st; simpl; [done|].
    rewrite IH. by apply run_draft_op_others.
Qed.

(** X8: Add New Update followed by Delete Update on the update just added
    gives back the state before the two, for a working copy that exists
    (and, for a new service, already has an update). *)
Theorem add_then_delete_update key body st wc :
  working_copies st !! key = Some wc →
  (key = -1 → updates wc ≠ []) →
  (handle_delete_update key (Z.of_nat (length (updates wc)))
     (handle_add_update key body st).1).1 = st.
Proof.
  intros Hw Hnew.
  assert ((handle_add_update key body st).1 =
          set_working_copies
            (<[key := set_updates (updates wc ++ [new_update]) wc]> (working_copies st))
            st) as ->.
  { unfold handle_add_update, get_or_create_working_copy.
    destruct (decide (key = -1)) as [->|].
    - rewrite Hw. specialize (Hnew eq_refl).
      destruct (updates wc) eqn:E; [done|]. by rewrite <- E.
    - by rewrite Hw. }
  erewrite delete_update_in_range.
  2: { simpl. apply lookup_insert_eq. }
  2: { simpl. rewrite length_app. simpl. lia. }
  simpl. rewrite Nat2Z.id.
  replace (delete (length (updates wc)) (updates wc ++ [new_update]))
    with (updates wc).
  2: { by rewrite delete_last. }
  rewrite insert_insert_eq.
  destruct st as [h g o f w], wc as [s n m d u]; simpl in *.
  unfold set_working_copies, set_updates; simpl. f_equal.
  by apply insert_id.
Qed.

Lemma add_then_delete_update_witness :
  (handle_delete_update 0 (Z.of_nat (length [Sample.ongoing; new_update]))
     (handle_add_update 0 None Sample.drafting).1).1 = Sample.drafting.
Proof.
  apply (add_then_delete_update 0 None Sample.drafting
           (set_updates [Sample.ongoing; new_update] Sample.api_down)).
  - vm_compute. reflexivity.
  - intros [=].
Defined.
End working_copies.

Section sessions.
Implicit Types (st : State) (e : Event).

Lemma well_formed_same_refs st st' :
  length (heap st') = length (heap st) →
  global_statuses st' = global_statuses st →
  original_statuses st' = original_statuses st →
  well_formed st → well_formed st'.
Proof. unfold well_formed. by intros -> -> ->. Qed.

Lemma well_formed_store_global v st : well_formed st → well_formed (store_global v st).
Proof.
  apply well_formed_same_refs; unfold store_global;
    destruct (global_statuses st) eqn:E; simpl; try done.
  by rewrite length_insert.
Qed.

Lemma well_formed_load fetch st :
  well_formed st → well_formed (load_status_data fetch st).1.
Proof.
  destruct fetch as [data|]; [|done]. intros _.
  unfold well_formed; simpl.
  split_and!; intros l ?; simplify_eq; rewrite ?length_app; simpl; try lia.
  eexists; split; [done|]. lia.
Qed.

Lemma well_formed_get_status_data fetch st :
  well_formed st → well_formed (get_status_data fetch st).1.
Proof.
  unfold get_status_data. destruct (canonical st); [done|].
  apply well_formed_load.
Qed.

Lemma well_formed_canonical st :
  well_formed st → canonical st = None → global_statuses st = None.
Proof.
  intros (Hg & _) Hc. unfold canonical, deref in Hc.
  destruct (global_statuses st) as [l|]; [|done].
  apply lookup_ge_None in Hc. specialize (Hg l eq_refl). lia.
Qed.

Lemma well_formed_baseline st b :
  well_formed st → baseline st = Some b →
  (∃ g, canonical st = Some g) ∧ global_statuses st ≠ original_statuses st.
Proof.
  intros (Hg & _ & Ho) Hb. unfold baseline, deref in Hb.
  destruct (original_statuses st) as [l|] eqn:E; [|done].
  destruct (Ho l eq_refl) as (l' & Hl' & Hne). split.
  - unfold canonical, deref. rewrite Hl'.
    apply lookup_lt_is_Some. by apply Hg.
  - rewrite Hl'. congruence.
Qed.

Lemma get_status_data_loaded fetch st g :
  canonical st = Some g → get_status_data fetch st = (st, g).
Proof. intros H. unfold get_status_data. by rewrite H. Qed.

Lemma well_formed_back_to_list view_id fetch st :
  well_formed st → well_formed (handle_back_to_list view_id fetch st).1.
Proof.
  intros H. unfold handle_back_to_list. destruct view_id; [|done].
  pose proof (well_formed_get_status_data fetch st H).
  by destruct (get_status_data fetch st).
Qed.

Lemma well_formed_show_service_details view_id fetch i st :
  well_formed st → well_formed (show_service_details view_id fetch i st).1.
Proof.
  intros H. unfold show_service_details. destruct view_id; [|done].
  set (st0 := set_working_copies _ st).
  assert (well_formed st0) as H0 by done.
  assert (well_formed
    match global_statuses st0 with
    | Some _ => st0
    | None =>
        let '(st', ret) := get_status_data fetch st0 in
        match global_statuses st' with
        | Some _ => st'
        | None =>
            let '(h, l) := alloc ret (heap st') in
            {| heap := h; global_statuses := Some l;
               original_statuses := original_statuses st';
               has_unsaved_changes := has_unsaved_changes st';
               working_copies := working_copies st' |}
        end
    end) as H1.
  { destruct (global_statuses st0) eqn:Eg; [done|].
    pose proof (well_formed_get_status_data fetch st0 H0) as H1.
    destruct (get_status_data fetch st0) as [st' ret]; simpl in H1.
    destruct (global_statuses st') eqn:Eg'; [done|].
    destruct H1 as (_ & Ho & Hgo). unfold well_formed; simpl.
    split_and!.
    - intros l ?; simplify_eq. rewrite length_app; simpl. lia.
    - intros l Hl. specialize (Ho l Hl). rewrite length_app; simpl. lia.
    - intros l Hl. destruct (Hgo l Hl) as (? & ? & _). congruence. }
  repeat case_match; done.
Qed.

Lemma well_formed_dispatch e st : well_formed st → well_formed (dispatch e st).
Proof.
  intros H. destruct e; simpl.
  - unfold ceda_status_command.
    pose proof (well_formed_get_status_data fetch st H).
    by destruct (get_status_data fetch st).
  - unfold open_edit_modal. destruct user_id; [|done]. case_bool_decide; [|done].
    pose proof (well_formed_get_status_data fetch st H).
    by destruct (get_status_data fetch st).
  - by apply well_formed_back_to_list.
  - by apply well_formed_back_to_list.
  - by apply well_formed_show_service_details.
  - unfold handle_edit_service_submission. repeat case_match; try done.
    by apply (well_formed_store_global _ st).
  - unfold handle_add_service_submission. repeat case_match; try done.
    by apply (well_formed_store_global _ st).
  - destruct (run_draft_op_frame service_index (AddUpdate body_values) st) as (Hh & Hg & Ho).
    revert H. apply well_formed_same_refs; simpl in *; congruence.
  - destruct (run_draft_op_frame service_index (DeleteUpdate update_index) st) as (Hh & Hg & Ho).
    revert H. apply well_formed_same_refs; simpl in *; congruence.
  - done.
  - unfold handle_delete_service. repeat case_match; try done.
    by apply (well_formed_store_global _ st).
  - unfold handle_reset_changes. apply well_formed_back_to_list.
    by apply (well_formed_load fetch st).
  - unfold handle_submit_changes. repeat case_match; done.
Qed.

Lemma well_formed_run_events events :
  well_formed (run_events events initial_state).
Proof.
  unfold run_events.
  assert (well_formed initial_state) as H0 by (by split_and!).
  revert H0. generalize initial_state.
  induction events as [|e es IH]; intros st Hst; simpl; [done|].
  by apply IH, well_formed_dispatch.
Qed.

(** X9: in every state a session reaches, [global_statuses] and
    [original_statuses] refer to lists that exist and are never one and
    the same list, and there is no baseline without a list of services:
    an in-place change of the list never reaches the baseline. *)
Theorem sessions_keep_lists_apart events :
  let st := run_events events initial_state in
  well_formed st ∧
  (canonical st = None ↔ global_statuses st = None) ∧
  (∀ b, baseline st = Some b →
        (∃ g, canonical st = Some g) ∧ global_statuses st ≠ original_statuses st).
Proof.
  pose proof (well_formed_run_events events) as H.
  simpl. split_and!; [done| |].
  - split; [by apply well_formed_canonical|].
    unfold canonical. by intros ->.
  - intros b. by apply well_formed_baseline.
Qed.

Lemma baseline_back_to_list view_id fetch st b :
  well_formed st → baseline st = Some b →
  baseline (handle_back_to_list view_id fetch st).1 = Some b.
Proof.
  intros H Hb. destruct (well_formed_baseline st b H Hb) as [[g Hg] _].
  unfold handle_back_to_list. destruct view_id; [|done].
  by rewrite (get_status_data_loaded fetch st g Hg).
Qed.

Lemma baseline_stored st w f v :
  global_statuses st ≠ original_statuses st →
  baseline (set_working_copies w (set_has_unsaved_changes f (store_global v st)))
  = baseline st.
Proof. intros H. by rewrite <- (baseline_store_global st v H). Qed.

Lemma baseline_dispatch e st b :
  well_formed st → baseline st = Some b →
  (∀ data again view_id, e ≠ EvResetChanges (FetchOk data) again view_id) →
  baseline (dispatch e st) = Some b.
Proof.
  intros H Hb He. destruct (well_formed_baseline st b H Hb) as [[g Hg] Hne].
  destruct e; simpl.
  - unfold ceda_status_command. by rewrite (get_status_data_loaded fetch st g Hg).
  - unfold open_edit_modal. destruct user_id; [|done]. case_bool_decide; [|done].
    by rewrite (get_status_data_loaded fetch st g Hg).
  - by apply baseline_back_to_list.
  - by apply baseline_back_to_list.
  - unfold show_service_details. destruct view_id; [|done].
    assert (∃ l, global_statuses st = Some l) as [l Hl].
    { unfold canonical, deref in Hg. destruct (global_statuses st); [eauto|done]. }
    simpl. rewrite Hl. by repeat case_match.
  - unfold handle_edit_service_submission. repeat case_match; try done.
    simpl. by rewrite baseline_stored.
  - unfold handle_add_service_submission. repeat case_match; try done.
    simpl. by rewrite baseline_stored.
  - destruct (run_draft_ops_lists service_index [AddUpdate body_values] st) as [_ Ho].
    simpl in Ho. by rewrite Ho.
  - destruct (run_draft_ops_lists service_index [DeleteUpdate update_index] st) as [_ Ho].
    simpl in Ho. by rewrite Ho.
  - done.
  - unfold handle_delete_service. repeat case_match; try done.
    simpl. by rewrite baseline_stored.
  - unfold handle_reset_changes. destruct fetch as [data|]; [by destruct (He data again view_id)|].
    by apply baseline_back_to_list.
  - unfold handle_submit_changes. by repeat case_match.
Qed.

(** X10: once a session has a baseline, no event but a Reset Changes whose
    fetch succeeds moves it: editing, adding and deleting services, the
    work on drafts, opening the lists and publishing all leave
    [original_statuses] with the content it had. *)
Theorem baseline_fixed_until_reset events events' b :
  baseline (run_events events initial_state) = Some b →
  Forall (λ e, ∀ data again view_id,
               e ≠ EvResetChanges (FetchOk data) again view_id) events' →
  baseline (run_events events' (run_events events initial_state)) = Some b.
Proof.
  pose proof (well_formed_run_events events) as H.
  revert H. generalize (run_events events initial_state).
  unfold run_events at 1.
  induction events' as [|e es IH]; intros st Hst Hb Hes; simpl; [done|].
  inversion Hes; subst.
  apply IH; [by apply well_formed_dispatch| |done].
  by apply baseline_dispatch.
Qed.

Lemma baseline_fixed_until_reset_witness :
  baseline
    (run_events
       [EvDeleteService 0; EvSubmitChanges Sample.github_ok;
        EvResetChanges FetchRequestException FetchRequestException None]
       (run_events [EvCedaStatus (FetchOk [Sample.api_down; Sample.ftp_at_risk])]
          initial_state))
  = Some [Sample.api_down; Sample.ftp_at_risk].
Proof.
  apply (baseline_fixed_until_reset
           [EvCedaStatus (FetchOk [Sample.api_down; Sample.ftp_at_risk])]).
  - vm_compute. reflexivity.
  - repeat constructor; intros; discriminate.
Defined.
End sessions.

Section reset.
(** X11: Reset Changes whose fetch succeeds ends with the fetched list as
    list of services and as baseline, no working copy, [has_changes]
    false, and the list modal without the warning.  When the fetch fails
    and a list is loaded, the list and the baseline stay as edited, but
    every working copy is gone all the same. *)
Theorem reset_changes_spec again view_id st :
  (∀ data,
     let '(st', view) := handle_reset_changes (FetchOk data) again view_id st in
     canonical st' = Some data ∧ baseline st' = Some data ∧
     working_copies st' = ∅ ∧ has_changes st' = false ∧
     view = (λ _, {| listed := data; unsaved_warning := false |}) <$> view_id) ∧
  (∀ g, canonical st = Some g →
     handle_reset_changes FetchRequestException again view_id st =
       (set_working_copies ∅ st,
        (λ _, {| listed := g; unsaved_warning := has_changes st |}) <$> view_id)).
Proof.
  split.
  - intros data. unfold handle_reset_changes, handle_back_to_list.
    destruct (load_ok data st) as (Hc & Hb & _ & _ & Hh & _).
    set (st1 := set_working_copies ∅ (load_status_data (FetchOk data) st).1).
    assert (canonical st1 = Some data) as Hc1 by done.
    assert (has_changes st1 = false) as Hh1 by done.
    destruct view_id; [|done].
    rewrite (get_status_data_loaded again st1 data Hc1). simpl.
    by rewrite Hh1.
  - intros g Hg. unfold handle_reset_changes, handle_back_to_list. simpl.
    destruct view_id; [|done].
    by rewrite (get_status_data_loaded again (set_working_copies ∅ st) g Hg).
Qed.

Lemma reset_changes_spec_witness :
  handle_reset_changes FetchRequestException FetchRequestException (Some "V1")
    Sample.drafting =
  (set_working_copies ∅ Sample.drafting,
   Some {| listed := [Sample.api_down];
           unsaved_warning := has_changes Sample.drafting |}).
Proof.
  apply (reset_changes_spec FetchRequestException (Some "V1") Sample.drafting).
  vm_compute. reflexivity.
Defined.
End reset.

Section detection.
Lemma list_insert_neq {A} (l : list A) k r :
  (k < length l)%nat → <[k := r]> l ≠ l ↔ l !! k ≠ Some r.
Proof.
  intros Hk. split.
  - intros Hne Hl. by apply Hne, list_insert_id.
  - intros Hne Heq. apply Hne. rewrite <- Heq. by apply list_lookup_insert_eq.
Qed.

(** X12: with a list that equals its baseline, deleting a service and
    adding a service always make [has_changes] true, and saving a service
    makes it true exactly when the saved record differs from the one at
    that place. *)
Theorem changes_are_detected st g :
  canonical st = Some g → baseline st = Some g →
  global_statuses st ≠ original_statuses st →
  (∀ i, 0 ≤ i < Z.of_nat (length g) →
        has_changes (handle_delete_service i st).1 = true) ∧
  (∀ values r, validate_form values = inr (∅, r) →
        has_changes (handle_add_service_submission values st).1 = true) ∧
  (∀ key k values r,
        py_index key (length g) = Some k →
        validate_form values = inr (∅, r) →
        has_changes (handle_edit_service_submission key values st).1 = true
        ↔ g !! k ≠ Some r).
Proof.
  intros Hg Hb Hne.
  assert (∀ v w f,
    has_changes (set_working_copies w (set_has_unsaved_changes f (store_global v st)))
      = true ↔ v ≠ g) as Hstore.
  { intros v w f. apply has_changes_true_iff.
    - by apply (canonical_store_global st g).
    - by rewrite baseline_stored. }
  split_and!.
  - intros i Hi. unfold handle_delete_service. rewrite Hg.
    destruct (py_getitem_valid g i) as [x ->]; [lia|].
    destruct (Z.leb_spec 0 i); [|lia].
    destruct (Z.ltb_spec i (Z.of_nat (length g))); [|lia]. simpl.
    unfold py_pop. rewrite py_index_valid by done. simpl.
    apply Hstore. intros Heq. apply (f_equal length) in Heq.
    rewrite length_delete in Heq by (apply lookup_lt_is_Some; lia). lia.
  - intros values r Hv. unfold handle_add_service_submission.
    rewrite Hv, Hg, decide_True by done. simpl.
    apply Hstore. intros Heq. apply (f_equal length) in Heq.
    rewrite length_app in Heq. simpl in Heq. lia.
  - intros key k values r Hk Hv. unfold handle_edit_service_submission, py_setitem.
    rewrite Hv, Hg, Hk, decide_True by done. simpl.
    rewrite Hstore. apply list_insert_neq. by eapply py_index_lt.
Qed.

Lemma changes_are_detected_witness :
  has_changes (handle_delete_service 0 Sample.loaded).1 = true ∧
  has_changes (handle_add_service_submission Sample.form_mail Sample.loaded).1 = true ∧
  (has_changes
     (handle_edit_service_submission 0 (Sample.form_api "Resolved") Sample.loaded).1
     = true
   ↔ [Sample.api_down] !! 0%nat ≠ Some Sample.api_resolved).
Proof.
  destruct (changes_are_detected Sample.loaded [Sample.api_down]) as (H1 & H2 & H3).
  - vm_compute. reflexivity.
  - vm_compute. reflexivity.
  - vm_compute. discriminate.
  - split_and!.
    + apply H1. simpl. lia.
    + apply (H2 _ Sample.mail_degraded). vm_compute. reflexivity.
    + apply (H3 0 0%nat). * reflexivity. * vm_compute. reflexivity.
Defined.
End detection.

Section drafts_and_forms.
Lemma set_working_copies_id st : set_working_copies (working_copies st) st = st.
Proof. by destruct st. Qed.

Lemma run_draft_op_shape key op st :
  ∃ w, run_draft_op key op st = set_working_copies w st ∧
       delete key w = delete key (working_copies st).
Proof.
  assert (∃ w, st = set_working_copies w st ∧
               delete key w = delete key (working_copies st)) as Hsame.
  { exists (working_copies st). by rewrite set_working_copies_id. }
  destruct op as [body|j]; simpl.
  - unfold handle_add_update. repeat case_match; simpl; try done;
      eexists; (split; [done|]); by rewrite delete_insert_eq.
  - unfold handle_delete_update. repeat case_match; simpl; try done;
      eexists; (split; [done|]); by rewrite delete_insert_eq.
Qed.

Lemma run_draft_ops_shape key ops : ∀ st,
  ∃ w, run_draft_ops key ops st = set_working_copies w st ∧
       delete key w = delete key (working_copies st).
Proof.
  unfold run_draft_ops.
  induction ops as [|op ops IH]; intros st; simpl.
  - exists (working_copies st). by rewrite set_working_copies_id.
  - destruct (run_draft_op_shape key op st) as (w & -> & Hw).
    destruct (IH (set_working_copies w st)) as (w' & -> & Hw').
    exists w'. split; [done|]. by rewrite Hw'.
Qed.

(** X13: the Edit button of a service discards its draft.  Whatever Add
    New Update and Delete Update did to the working copy of a service
    before, [show_service_details] for that service ends in the same state
    and shows the same form as without them. *)
Theorem edit_discards_draft v fetch key ops st :
  show_service_details (Some v) fetch key (run_draft_ops key ops st) =
  show_service_details (Some v) fetch key st.
Proof.
  destruct (run_draft_ops_shape key ops st) as (w & -> & Hw).
  unfold show_service_details.
  assert (set_working_copies (delete key (working_copies (set_working_copies w st)))
            (set_working_copies w st)
          = set_working_copies (delete key (working_copies st)) st) as ->; [|done].
  simpl. rewrite Hw. done.
Qed.

(** X14: a new service that is never submitted leaves no trace.  After
    Add Service, any sequence of Add New Update and Delete Update on the
    new service, and Back to Service List, the state and the list shown
    are what Back to Service List alone gives. *)
Theorem abandoned_new_service_leaves_no_trace view_id fetch ops st :
  handle_back_to_list_from_service view_id fetch
    (run_draft_ops (-1) ops (handle_add_service st).1) =
  handle_back_to_list_from_service view_id fetch st.
Proof.
  destruct (run_draft_ops_shape (-1) ops (handle_add_service st).1) as (w & -> & Hw).
  unfold handle_back_to_list_from_service. f_equal.
  simpl in *. by rewrite Hw, delete_delete_eq.
Qed.

(** X15: Add New Update does not read the form, except for a new service
    that has no update in its draft yet: what was typed is not carried
    into the working copy.  In the exceptional case the draft gets exactly
    one update, the blank one, whatever the form holds. *)
Theorem add_update_reads_no_form key body body' st :
  ((key = -1 → ∃ wc, working_copies st !! (-1) = Some wc ∧ updates wc ≠ []) →
   handle_add_update key body st = handle_add_update key body' st) ∧
  (key = -1 →
   (∀ wc, working_copies st !! (-1) = Some wc → updates wc = []) →
   ∃ wc, handle_add_update key body st =
           (set_working_copies (<[-1 := wc]> (working_copies st)) st,
            inr {| callback_id := add_service_modal; private_metadata := -1;
                   shown := wc |}) ∧
         updates wc = [new_update]).
Proof.
  assert (∀ values, updates (extract_form values) = []) as Hx.
  { intros values. unfold extract_form.
    assert (∀ wc, updates wc = [] →
      updates (foldl (λ wc '(_, actions),
                 foldl (λ wc '(action_id, value),
                          extract_form_action action_id value wc) wc actions)
               wc values) = []) as H; [|by apply H].
    induction values as [|[b actions] values IH]; intros wc Hwc; simpl; [done|].
    apply IH. revert wc Hwc.
    induction actions as [|[a x] actions IHa]; intros wc Hwc; simpl; [done|].
    apply IHa. unfold extract_form_action. by repeat case_match. }
  assert (updates (from_option extract_form empty_service body) = []) as Hb.
  { destruct body; simpl; [apply Hx|done]. }
  split.
  - intros H. unfold handle_add_update.
    destruct (decide (key = -1)) as [->|]; [|done].
    destruct H as (wc & -> & Hwc); [done|]. by destruct (updates wc).
  - intros -> H. unfold handle_add_update. rewrite decide_True by done.
    eexists. split.
    + destruct (working_copies st !! (-1)) as [wc|] eqn:E; [|done].
      by rewrite (H wc).
    + simpl. by rewrite Hb.
Qed.

Lemma add_update_reads_no_form_witness :
  handle_add_update 0 (Some (Sample.form_api "Resolved")) Sample.loaded =
    handle_add_update 0 None Sample.loaded ∧
  ∃ wc, handle_add_update (-1) (Some (Sample.form_api "Resolved")) Sample.loaded =
          (set_working_copies (<[-1 := wc]> (working_copies Sample.loaded))
             Sample.loaded,
           inr {| callback_id := add_service_modal; private_metadata := -1;
                  shown := wc |}) ∧
        updates wc = [new_update].
Proof.
  split.
  - apply (add_update_reads_no_form 0 (Some (Sample.form_api "Resolved")) None
             Sample.loaded).
    intros [=].
  - apply (add_update_reads_no_form (-1) (Some (Sample.form_api "Resolved")) None
             Sample.loaded).
    + reflexivity.
    + intros wc. vm_compute. discriminate.
Defined.
End drafts_and_forms.

Section failed_submissions.
Lemma py_index_outside (i : Z) (n : nat) :
  ¬ (- Z.of_nat n ≤ i < Z.of_nat n) → py_index i n = None.
Proof.
  intros H. unfold py_index.
  destruct (Z.leb_spec 0 i).
  - by destruct (Z.ltb_spec i (Z.of_nat n)); [lia|].
  - by destruct (Z.leb_spec (- Z.of_nat n) i); [lia|].
Qed.

(** X16: a form that passes every check is still not stored when there is
    no place for it.  Before any list is loaded both submission handlers
    fail (a [TypeError] for the edit, an [AttributeError] for the new
    service); with a list loaded, an edit whose index is outside
    [-len, len) fails with an [IndexError].  In each case the state is
    left as it was, the working copy included. *)
Theorem submission_without_place key values r st :
  validate_form values = inr (∅, r) →
  (canonical st = None →
     handle_edit_service_submission key values st = (st, SubmissionFailed TypeError) ∧
     handle_add_service_submission values st = (st, SubmissionFailed AttributeError)) ∧
  (∀ g, canonical st = Some g →
     ¬ (- Z.of_nat (length g) ≤ key < Z.of_nat (length g)) →
     handle_edit_service_submission key values st = (st, SubmissionFailed IndexError)).
Proof.
  intros Hv. split.
  - intros Hc. unfold handle_edit_service_submission, handle_add_service_submission.
    by rewrite Hv, Hc, decide_True.
  - intros g Hg Hk. unfold handle_edit_service_submission, py_setitem.
    by rewrite Hv, Hg, decide_True, py_index_outside.
Qed.

Lemma submission_without_place_witness :
  (handle_edit_service_submission 1 (Sample.form_api "Resolved") initial_state
     = (initial_state, SubmissionFailed TypeError) ∧
   handle_add_service_submission (Sample.form_api "Resolved") initial_state
     = (initial_state, SubmissionFailed AttributeError)) ∧
  handle_edit_service_submission 1 (Sample.form_api "Resolved") Sample.loaded
     = (Sample.loaded, SubmissionFailed IndexError).
Proof.
  split.
  - apply (submission_without_place 1 (Sample.form_api "Resolved")
             Sample.api_resolved initial_state).
    + vm_compute. reflexivity.
    + reflexivity.
  - apply (submission_without_place 1 (Sample.form_api "Resolved")
             Sample.api_resolved Sample.loaded) with (g := [Sample.api_down]).
    + vm_compute. reflexivity.
    + vm_compute. reflexivity.
    + simpl. lia.
Defined.

Lemma scan_form_action_blocks b a fb :
  (∀ x, service_name_block (scan_form_action b a fb) = Some x →
        service_name_block fb = Some x ∨ a = "service_name_input") ∧
  (∀ x, service_status_block (scan_form_action b a fb) = Some x →
        service_status_block fb = Some x ∨ a = "service_status_select") ∧
  (∀ x, service_date_block (scan_form_action b a fb) = Some x →
        service_date_block fb = Some x ∨ a = "service_date_input") ∧
  (∀ x, service_summary_block (scan_form_action b a fb) = Some x →
        service_summary_block fb = Some x ∨ a = "service_summary_input").
Proof.
  unfold scan_form_action.
  destruct (String.eqb_spec a "service_name_input") as [->|?];
    [by split_and!; simpl; auto|].
  destruct (String.eqb_spec a "service_status_select") as [->|?];
    [by split_and!; simpl; auto|].
  destruct (String.eqb_spec a "service_date_input") as [->|?];
    [by split_and!; simpl; auto|].
  destruct (String.eqb_spec a "service_summary_input") as [->|?];
    [by split_and!; simpl; auto|].
  split_and!; auto.
Qed.

(** The action ids that occur in a form. *)
Lemma find_form_blocks_actions (values : ViewValues) (a : string) :
  (∀ b actions v, (b, actions) ∈ values → (a, v) ∉ actions) →
  (a = "service_name_input" → service_name_block (find_form_blocks values) = None) ∧
  (a = "service_status_select" → service_status_block (find_form_blocks values) = None) ∧
  (a = "service_date_input" → service_date_block (find_form_blocks values) = None) ∧
  (a = "service_summary_input" → service_summary_block (find_form_blocks values) = None).
Proof.
  unfold find_form_blocks.
  set (P := λ fb : FormBlocks,
    (a = "service_name_input" → service_name_block fb = None) ∧
    (a = "service_status_select" → service_status_block fb = None) ∧
    (a = "service_date_input" → service_date_block fb = None) ∧
    (a = "service_summary_input" → service_summary_block fb = None)).
  assert (P {| service_name_block := None; service_status_block := None;
               service_date_block := None; service_summary_block := None |}) as H0
    by (by split_and!).
  revert H0. generalize ({| service_name_block := None; service_status_block := None;
               service_date_block := None; service_summary_block := None |}).
  induction values as [|[b actions] values IH]; intros fb Hfb Hno; simpl; [done|].
  apply IH.
  - assert (∀ v, (a, v) ∉ actions) as Hact.
    { intros v. apply (Hno b). apply elem_of_cons. by left. }
    clear Hno IH. revert fb Hfb.
    induction actions as [|[a' x] actions IHa]; intros fb Hfb; simpl; [done|].
    apply IHa.
    + intros v Hv. apply (Hact v). apply elem_of_cons. by right.
    + assert (a ≠ a') as Hne.
      { intros ->. apply (Hact x). apply elem_of_cons. by left. }
      destruct Hfb as (H1 & H2 & H3 & H4).
      destruct (scan_form_action_blocks b a' fb) as (S1 & S2 & S3 & S4).
      unfold P. split_and!; intros Ha.
      * destruct (service_name_block (scan_form_action b a' fb)) eqn:E; [|done].
        destruct (S1 _ eq_refl) as [Hs|Hs]; [by rewrite (H1 Ha) in Hs|congruence].
      * destruct (service_status_block (scan_form_action b a' fb)) eqn:E; [|done].
        destruct (S2 _ eq_refl) as [Hs|Hs]; [by rewrite (H2 Ha) in Hs|congruence].
      * destruct (service_date_block (scan_form_action b a' fb)) eqn:E; [|done].
        destruct (S3 _ eq_refl) as [Hs|Hs]; [by rewrite (H3 Ha) in Hs|congruence].
      * destruct (service_summary_block (scan_form_action b a' fb)) eqn:E; [|done].
        destruct (S4 _ eq_refl) as [Hs|Hs]; [by rewrite (H4 Ha) in Hs|congruence].
  - intros b' actions' v Hin. apply (Hno b'). apply elem_of_cons. by right.
Qed.

Lemma has_action_false a (values : ViewValues) :
  has_action a values = false →
  ∀ b actions v, (b, actions) ∈ values → (a, v) ∉ actions.
Proof.
  unfold has_action. intros H b actions v Hb Hv.
  apply not_true_iff_false in H. apply H.
  apply existsb_exists. exists (b, actions). split.
  - by apply list_elem_of_In.
  - apply existsb_exists. exists (a, v). split.
    + by apply list_elem_of_In.
    + apply String.eqb_refl.
Qed.

(** X17: a form that lacks one of the four service fields (no action with
    that id in any block) is rejected as a whole: both submission handlers
    end in the [except] branch with the [ValueError], report no field
    errors and leave the state as it was. *)
Theorem submission_missing_field a key values st :
  a ∈ ["service_name_input"; "service_status_select";
       "service_date_input"; "service_summary_input"] →
  has_action a values = false →
  validate_form values = inl ValueError ∧
  handle_edit_service_submission key values st = (st, SubmissionFailed ValueError) ∧
  handle_add_service_submission values st = (st, SubmissionFailed ValueError).
Proof.
  intros Ha Hno.
  assert (validate_form values = inl ValueError) as Hv.
  { destruct (find_form_blocks_actions values a (has_action_false a values Hno)) as (H1 & H2 & H3 & H4).
    unfold validate_form.
    repeat (apply elem_of_cons in Ha as [->|Ha]);
      [rewrite H1 by done|rewrite H2 by done|rewrite H3 by done|rewrite H4 by done|
       by apply elem_of_nil in Ha]; simpl; by repeat case_match. }
  unfold handle_edit_service_submission, handle_add_service_submission.
  by rewrite Hv.
Qed.

Lemma submission_missing_field_witness :
  validate_form (Sample.update_inputs "0" "2024-05-20T10:00" "ongoing" EmptyString)
    = inl ValueError ∧
  handle_edit_service_submission 0
    (Sample.update_inputs "0" "2024-05-20T10:00" "ongoing" EmptyString) Sample.loaded
    = (Sample.loaded, SubmissionFailed ValueError) ∧
  handle_add_service_submission
    (Sample.update_inputs "0" "2024-05-20T10:00" "ongoing" EmptyString) Sample.loaded
    = (Sample.loaded, SubmissionFailed ValueError).
Proof.
  apply (submission_missing_field "service_summary_input").
  - vm_compute. do 3 right. left.
  - vm_compute. reflexivity.
Defined.
End failed_submissions.

Section status_options.
(** X18: the status drop-down of the form always starts on one of its four
    options, and a status that was saved from the form (the text of an
    option) or that equals the value of an option is preselected as
    itself; the list shows the same emoji for the text and for the value
    of the option. *)
Theorem status_option_stable service_status :
  let option := initial_status_option service_status in
  option ∈ [("Degraded", "degraded"); ("Down", "down"); ("At Risk", "at risk");
            ("Resolved", "resolved")] ∧
  initial_status_option option.1 = option ∧
  initial_status_option option.2 = option ∧
  get_status_emoji option.1 = get_status_emoji option.2.
Proof.
  unfold initial_status_option at 1.
  destruct (contains "degraded" (lower service_status)).
  { simpl. split_and!; try (vm_compute; reflexivity).
    rewrite !elem_of_cons; naive_solver. }
  destruct (contains "down" (lower service_status)).
  { simpl. split_and!; try (vm_compute; reflexivity).
    rewrite !elem_of_cons; naive_solver. }
  destruct (contains "at risk" (lower service_status)).
  { simpl. split_and!; try (vm_compute; reflexivity).
    rewrite !elem_of_cons; naive_solver. }
  simpl. split_and!; try (vm_compute; reflexivity).
    rewrite !elem_of_cons; naive_solver.
Qed.
End status_options.

Section authorisation.
Lemma comma_free_cons c s :
  contains "," (String c s) = false → Ascii.eqb c "," = false ∧ contains "," s = false.
Proof.
  change (contains "," (String c s))
    with (match (if Ascii.eqb "," c then Some s else None) with
          | Some _ => true
          | None => contains "," s
          end).
  rewrite (Ascii.eqb_sym "," c).
  by destruct (Ascii.eqb c ",").
Qed.

Lemma split_comma_comma_free s : contains "," s = false → split_comma s = [s].
Proof.
  induction s as [|c s IH]; [done|].
  intros [Hc Hs]%comma_free_cons. simpl. by rewrite Hc, IH.
Qed.

Lemma split_comma_app s rest :
  contains "," s = false →
  split_comma (s +:+ String "," rest) = s :: split_comma rest.
Proof.
  induction s as [|c s IH]; [done|].
  intros [Hc Hs]%comma_free_cons.
  rewrite JsonFacts.string_app_cons. simpl. by rewrite Hc, IH.
Qed.

Lemma split_comma_concat l :
  l ≠ [] → Forall (λ s, contains "," s = false) l →
  split_comma (String.concat "," l) = l.
Proof.
  induction l as [|s l IH]; [done|]. intros _ Hl.
  apply Forall_cons in Hl as [Hs Hl].
  destruct l as [|s' l]; [by apply split_comma_comma_free|].
  change (String.concat "," (s :: s' :: l))
    with (s +:+ String "," (String.concat "," (s' :: l))).
  rewrite split_comma_app by done. by rewrite IH.
Qed.

(** X19: when the environment variable holds user ids joined by commas,
    the ids without a comma in them, the list of authorised users is
    exactly these ids.  [open_edit_modal] shows the list of services to
    them and to nobody else: for any other user it neither fetches nor
    changes the state.  When the variable is not set, no user with a
    non-empty id gets in. *)
Theorem authorised_users_gate l user_id fetch st :
  l ≠ [] → Forall (λ s, contains "," s = false) l →
  let authorised := AUTHORISED_USERS (Some (String.concat "," l)) in
  authorised = l ∧
  (user_id ∈ l →
     open_edit_modal authorised (Some user_id) fetch st =
       ((get_status_data fetch st).1,
        ListShown {| listed := (get_status_data fetch st).2;
                     unsaved_warning := has_changes (get_status_data fetch st).1 |})) ∧
  (user_id ∉ l →
     open_edit_modal authorised (Some user_id) fetch st = (st, NotAuthorised)) ∧
  (user_id ≠ EmptyString →
     open_edit_modal (AUTHORISED_USERS None) (Some user_id) fetch st
       = (st, NotAuthorised)).
Proof.
  intros Hne Hl. simpl.
  assert (AUTHORISED_USERS (Some (String.concat "," l)) = l) as ->
    by (by apply split_comma_concat).
  unfold open_edit_modal. split_and!; [done| | |].
  - intros Hu. rewrite bool_decide_eq_true_2 by done.
    by destruct (get_status_data fetch st).
  - intros Hu. by rewrite bool_decide_eq_false_2.
  - intros Hu. rewrite bool_decide_eq_false_2; [done|].
    by intros ->%list_elem_of_singleton.
Qed.

Lemma authorised_users_gate_witness :
  AUTHORISED_USERS (Some "U01,U02") = ["U01"; "U02"] ∧
  open_edit_modal (AUTHORISED_USERS (Some "U01,U02")) (Some "U02")
      (FetchOk [Sample.api_down]) initial_state =
    (Sample.loaded,
     ListShown {| listed := [Sample.api_down]; unsaved_warning := false |}) ∧
  open_edit_modal (AUTHORISED_USERS (Some "U01,U02")) (Some "U03")
      (FetchOk [Sample.api_down]) initial_state = (initial_state, NotAuthorised) ∧
  open_edit_modal (AUTHORISED_USERS None) (Some "U01")
      (FetchOk [Sample.api_down]) initial_state = (initial_state, NotAuthorised).
Proof.
  assert (["U01"; "U02"] ≠ @nil string) as H1 by discriminate.
  assert (Forall (λ s, contains "," s = false) ["U01"; "U02"]) as H2
    by (repeat constructor).
  destruct (authorised_users_gate ["U01"; "U02"] "U02" (FetchOk [Sample.api_down])
              initial_state H1 H2) as (Ha & Hin & _ & _).
  destruct (authorised_users_gate ["U01"; "U02"] "U03" (FetchOk [Sample.api_down])
              initial_state H1 H2) as (_ & _ & Hout & _).
  destruct (authorised_users_gate ["U01"; "U02"] "U01" (FetchOk [Sample.api_down])
              initial_state H1 H2) as (_ & _ & _ & Hunset).
  split_and!.
  - exact Ha.
  - apply Hin. apply elem_of_cons. right. apply elem_of_cons. by left.
  - apply Hout.
    intros [?|[?|?%elem_of_nil]%elem_of_cons]%elem_of_cons; done.
  - apply Hunset. discriminate.
Defined.
End authorisation.

Section form_round_trip.
Import JsonFacts.
Implicit Types (j : nat) (sfx : string) (us : list UpdateEntry).

(** [str j] is a non-empty run of digits. *)
Lemma pretty_N_go_digits x : ∀ s,
  ∃ d, pretty_N_go x s = d +:+ s ∧
       forallb is_digit (list_ascii_of_string d) = true ∧
       ((0 < x)%N → d ≠ EmptyString).
Proof.
  induction (N.lt_wf_0 x) as [x _ IH]. intros s.
  destruct (decide (x = 0%N)) as [->|Hx].
  - exists EmptyString. rewrite pretty_N_go_0. split_and!; [done|done|lia].
  - rewrite pretty_N_go_step by lia.
    destruct (IH (x `div` 10)%N) with (s := String (pretty_N_char (x `mod` 10)) s)
      as (d & -> & Hd & _).
    { apply N.div_lt; lia. }
    exists (d +:+ String (pretty_N_char (x `mod` 10)) EmptyString). split_and!.
    + by rewrite string_app_assoc.
    + assert (∀ a b, list_ascii_of_string (a +:+ b)
                     = list_ascii_of_string a ++ list_ascii_of_string b) as Happ.
      { intros a b. induction a as [|c a IHa]; [done|].
        rewrite string_app_cons. simpl. by rewrite IHa. }
      rewrite Happ, forallb_app, Hd. simpl.
      unfold pretty_N_char. by repeat case_match.
    + intros _. by destruct d.
Qed.

Lemma str_digits j :
  str j ≠ EmptyString ∧ forallb is_digit (list_ascii_of_string (str j)) = true.
Proof.
  unfold str, pretty, pretty_nat, pretty, pretty_N.
  destruct (decide (N.of_nat j = 0%N)) as [_|Hj]; [done|].
  destruct (pretty_N_go_digits (N.of_nat j) EmptyString) as (d & -> & Hd & Hne).
  rewrite string_app_nil_r. split; [apply Hne; lia|done].
Qed.

Lemma span_digits_app d rest :
  forallb is_digit (list_ascii_of_string d) = true →
  span_digits (d +:+ String "_" rest) = (d, String "_" rest).
Proof.
  induction d as [|c d IH]; [done|]. simpl. intros [Hc Hd]%andb_prop.
  by rewrite Hc, IH.
Qed.

Lemma match_update_block_str suffix j rest :
  match_update_block suffix ("update_" +:+ str j +:+ String "_" rest) =
  (_ ← strip_prefix suffix (String "_" rest); Some (str j)).
Proof.
  destruct (str_digits j) as [Hne Hd].
  unfold match_update_block.
  assert (strip_prefix "update_" ("update_" +:+ str j +:+ String "_" rest)
          = Some (str j +:+ String "_" rest)) as -> by done.
  simpl. rewrite span_digits_app by done. by destruct (str j).
Qed.

Local Abbreviation scan_updates := (foldl (λ (ub : UpdateBlocks) '(block_id, actions),
  foldl (λ ub '(action_id, _), scan_update_action block_id action_id ub)
        ub (actions : Dict ElementState))).

Local Abbreviation scan_form := (foldl (λ (fb : FormBlocks) '(block_id, actions),
  foldl (λ fb '(action_id, _), scan_form_action block_id action_id fb)
        fb (actions : Dict ElementState))).

Local Abbreviation block_id_of j kind sfx := ("update_" +:+ str j +:+ String "_" (kind +:+ sfx)).

Lemma scan_updates_update_input_blocks j u sfx ub :
  scan_updates ub (update_input_blocks j u sfx) =
  {| update_blocks := <[str j := block_id_of j "date_" sfx]> (update_blocks ub);
     update_details_blocks :=
       <[str j := block_id_of j "details_" sfx]> (update_details_blocks ub);
     update_url_blocks := <[str j := block_id_of j "url_" sfx]> (update_url_blocks ub) |}.
Proof.
  unfold update_input_blocks. cbn [foldl]. unfold scan_update_action. cbn [String.eqb Ascii.eqb Bool.eqb].
  change ("_date_" +:+ sfx) with (String "_" ("date_" +:+ sfx)).
  change ("_details_" +:+ sfx) with (String "_" ("details_" +:+ sfx)).
  change ("_url_" +:+ sfx) with (String "_" ("url_" +:+ sfx)).
  rewrite !match_update_block_str. done.
Qed.

Local Abbreviation insert_ids kind sfx :=
  (foldl (λ (m : gmap string string) i, <[str i := block_id_of i kind sfx]> m)).

Lemma scan_updates_update_inputs_from sfx us : ∀ j ub,
  scan_updates ub (update_inputs_from j us sfx) =
  {| update_blocks := insert_ids "date_" sfx (update_blocks ub) (seq j (length us));
     update_details_blocks :=
       insert_ids "details_" sfx (update_details_blocks ub) (seq j (length us));
     update_url_blocks :=
       insert_ids "url_" sfx (update_url_blocks ub) (seq j (length us)) |}.
Proof.
  induction us as [|u us IH]; intros j ub; [by destruct ub|].
  cbn [update_inputs_from]. rewrite foldl_app.
  rewrite scan_updates_update_input_blocks, IH. done.
Qed.

Lemma str_inj i j : str i = str j → i = j.
Proof. apply (inj pretty). Qed.

Lemma insert_ids_lookup kind sfx m n : ∀ j i,
  (j ≤ i < j + n)%nat →
  insert_ids kind sfx m (seq j n) !! str i = Some (block_id_of i kind sfx).
Proof.
  induction n as [|n IH]; intros j i Hi; [lia|].
  rewrite seq_S, foldl_app. simpl.
  destruct (decide (i = (j + n)%nat)) as [->|Hne].
  - by rewrite lookup_insert_eq.
  - rewrite lookup_insert_ne by (intros ?%str_inj; lia). apply IH. lia.
Qed.

Lemma insert_ids_dom kind sfx n : ∀ j,
  dom (insert_ids kind sfx ∅ (seq j n)) = list_to_set (str <$> seq j n).
Proof.
  induction n as [|n IH]; intros j.
  - simpl. apply dom_empty_L.
  - rewrite seq_S, foldl_app, fmap_app, list_to_set_app_L. simpl.
    rewrite dom_insert_L, IH, (right_id_L ∅ (∪)). apply (comm_L (∪)).
Qed.

Lemma sorted_keys_insert_ids kind sfx n :
  (n ≤ 10)%nat →
  sorted_keys (insert_ids kind sfx ∅ (seq 0 n)) = str <$> seq 0 n.
Proof.
  intros Hn. unfold sorted_keys. rewrite insert_ids_dom.
  do 11 (destruct n as [|n]; [vm_compute; reflexivity|]). lia.
Qed.

(** Block ids of different updates, or of different fields, differ. *)
Lemma block_id_eqb suffix i j r r' :
  is_Some (strip_prefix suffix (String "_" r)) →
  strip_prefix suffix (String "_" r') = None ∨ i ≠ j →
  String.eqb ("update_" +:+ str i +:+ String "_" r)
             ("update_" +:+ str j +:+ String "_" r') = false.
Proof.
  intros [x Hx] Hne. apply String.eqb_neq. intros Heq.
  apply (f_equal (match_update_block suffix)) in Heq.
  rewrite !match_update_block_str, Hx in Heq. simpl in Heq.
  destruct Hne as [Hr|Hij].
  - by rewrite Hr in Heq.
  - destruct (strip_prefix suffix (String "_" r')); simplify_eq/=;
      by apply Hij, str_inj.
Qed.

Lemma dict_get_update_inputs_from sfx us : ∀ j i u,
  us !! i = Some u →
  dict_get (block_id_of (j + i) "date_" sfx) (update_inputs_from j us sfx)
    = Some [("update_date_input", PlainTextInput (u_date u))] ∧
  dict_get (block_id_of (j + i) "details_" sfx) (update_inputs_from j us sfx)
    = Some [("update_details_input", PlainTextInput (u_details u))] ∧
  dict_get (block_id_of (j + i) "url_" sfx) (update_inputs_from j us sfx)
    = Some [("update_url_input", PlainTextInput (default EmptyString (u_url u)))].
Proof.
  induction us as [|u0 us IH]; intros j i u Hi; [done|].
  cbn [update_inputs_from update_input_blocks app dict_get].
  change ("_date_" +:+ sfx) with (String "_" ("date_" +:+ sfx)).
  change ("_details_" +:+ sfx) with (String "_" ("details_" +:+ sfx)).
  change ("_url_" +:+ sfx) with (String "_" ("url_" +:+ sfx)).
  destruct i as [|i]; simpl in Hi.
  - simplify_eq. rewrite Nat.add_0_r, !String.eqb_refl.
    rewrite (block_id_eqb "_details" j j ("details_" +:+ sfx) ("date_" +:+ sfx))
      by (by eauto).
    rewrite (block_id_eqb "_url" j j ("url_" +:+ sfx) ("date_" +:+ sfx)) by (by eauto).
    rewrite (block_id_eqb "_url" j j ("url_" +:+ sfx) ("details_" +:+ sfx)) by (by eauto).
    done.
  - rewrite !(block_id_eqb "_date" (j + S i) j ("date_" +:+ sfx))
      by (eauto with lia).
    rewrite !(block_id_eqb "_details" (j + S i) j ("details_" +:+ sfx))
      by (eauto with lia).
    rewrite !(block_id_eqb "_url" (j + S i) j ("url_" +:+ sfx))
      by (eauto with lia).
    replace (j + S i)%nat with (S j + i)%nat by lia. by apply IH.
Qed.

Lemma dict_get_create_service_detail_blocks service sfx i u :
  updates service !! i = Some u →
  let values := create_service_detail_blocks service sfx in
  input_value values (block_id_of i "date_" sfx) "update_date_input" = inr (u_date u) ∧
  input_value values (block_id_of i "details_" sfx) "update_details_input"
    = inr (u_details u) ∧
  input_value values (block_id_of i "url_" sfx) "update_url_input"
    = inr (default EmptyString (u_url u)).
Proof.
  intros Hi. destruct (dict_get_update_inputs_from sfx _ 0 i u Hi) as (H1 & H2 & H3).
  simpl in H1, H2, H3.
  unfold create_service_detail_blocks, input_value.
  destruct (initial_status_option (status service)) as [mapped_status mapped_value].
  cbn [app dict_get].
  assert (∀ (a b : string) (x y : option (Dict ElementState)),
            (if String.eqb ("update_" +:+ a) ("service_" +:+ b) then x else y) = y)
    as Hskip by done.
  change ("service_name_" +:+ sfx) with ("service_" +:+ "name_" +:+ sfx).
  change ("service_status_" +:+ sfx) with ("service_" +:+ "status_" +:+ sfx).
  change ("service_date_" +:+ sfx) with ("service_" +:+ "date_" +:+ sfx).
  change ("service_summary_" +:+ sfx) with ("service_" +:+ "summary_" +:+ sfx).
  rewrite !Hskip, H1, H2, H3. done.
Qed.

Lemma accepted_update_create_service_detail_blocks service sfx i u :
  updates service !! i = Some u → valid_update u →
  let values := create_service_detail_blocks service sfx in
  accepted_update values (find_update_blocks values) (str i) = Some u.
Proof.
  intros Hi [Hd Hu]. simpl.
  destruct (dict_get_create_service_detail_blocks service sfx i u Hi) as (H1 & H2 & H3).
  cbv zeta in H1, H2, H3.
  assert (find_update_blocks (create_service_detail_blocks service sfx) =
          {| update_blocks :=
               insert_ids "date_" sfx ∅ (seq 0 (length (updates service)));
             update_details_blocks :=
               insert_ids "details_" sfx ∅ (seq 0 (length (updates service)));
             update_url_blocks :=
               insert_ids "url_" sfx ∅ (seq 0 (length (updates service))) |}) as Hub.
  { unfold find_update_blocks, create_service_detail_blocks.
    destruct (initial_status_option (status service)) as [mapped_status mapped_value].
    rewrite foldl_app. cbn [foldl]. unfold scan_update_action at 1 2 3 4.
    cbn [String.eqb Ascii.eqb Bool.eqb].
    by rewrite scan_updates_update_inputs_from. }
  assert (i < length (updates service))%nat as Hlt by (by eapply lookup_lt_Some).
  unfold accepted_update. rewrite Hub. cbn [update_blocks update_details_blocks update_url_blocks].
  rewrite !insert_ids_lookup by lia.
  rewrite H1, H2, H3, Hd.
  destruct u as [d details [x|]]; simpl in *; [|done].
  destruct Hu as [Hx Hv]. rewrite Hv. by destruct x.
Qed.

Lemma process_updates_accepted values ub idxs : ∀ errors acc,
  (∀ idx, idx ∈ idxs → is_Some (accepted_update values ub idx)) →
  process_updates values ub idxs errors acc =
    inr (errors, acc ++ omap (accepted_update values ub) idxs).
Proof.
  induction idxs as [|idx idxs IH]; intros errors acc Hall.
  - simpl. by rewrite app_nil_r.
  - assert (∀ idx', idx' ∈ idxs → is_Some (accepted_update values ub idx')) as Hrest.
    { intros idx' ?. apply Hall. apply elem_of_cons. by right. }
    destruct (Hall idx) as [u Hu]; [apply elem_of_cons; by left|].
    cbn [omap list_omap]. rewrite Hu. revert Hu.
    cbn [process_updates]. unfold accepted_update, mbind, exn_bind.
    repeat (case_match; simplify_eq; try done); intros; simplify_eq;
      rewrite IH by done; by rewrite <- app_assoc.
Qed.

Lemma omap_accepted (f : string → option UpdateEntry) us : ∀ j,
  (∀ i u, us !! i = Some u → f (str (j + i)) = Some u) →
  omap f (str <$> seq j (length us)) = us.
Proof.
  induction us as [|u us IH]; intros j Hf; [done|].
  cbn [length seq fmap list_fmap omap list_omap].
  rewrite <- (Nat.add_0_r j) at 1. rewrite (Hf 0%nat u) by done.
  f_equal. apply IH. intros i u' Hi.
  replace (S j + i)%nat with (j + S i)%nat by lia. by apply Hf.
Qed.

Lemma scan_form_update_inputs_from sfx us : ∀ j fb,
  scan_form fb (update_inputs_from j us sfx) = fb.
Proof.
  induction us as [|u us IH]; intros j fb; [done|].
  cbn [update_inputs_from]. rewrite foldl_app, IH. done.
Qed.

(** X20: a valid service with at most ten updates, shown in the form by
    [create_service_detail_blocks] and submitted as shown, passes every
    check of the submission handlers, and the record they build is the
    service itself, with its status replaced by the text of the
    preselected option. *)
Theorem unchanged_form_round_trip service unique_suffix :
  valid_service service →
  (length (updates service) ≤ 10)%nat →
  validate_form (create_service_detail_blocks service unique_suffix) =
    inr (∅, {| status := (initial_status_option (status service)).1;
               affectedServices := affectedServices service;
               summary := summary service;
               date := date service;
               updates := updates service |}).
Proof.
  intros (Hdate & Hname & Hsum & Hups & Hvalid) Hlen.
  set (values := create_service_detail_blocks service unique_suffix).
  assert (omap (accepted_update values (find_update_blocks values))
               (str <$> seq 0 (length (updates service))) = updates service) as Homap.
  { apply omap_accepted. intros i u Hi.
    apply accepted_update_create_service_detail_blocks; [done|].
    eapply Forall_lookup_1; eauto. }
  assert (sorted_keys (update_blocks (find_update_blocks values))
          = str <$> seq 0 (length (updates service))) as Hkeys.
  { unfold values, find_update_blocks, create_service_detail_blocks.
    destruct (initial_status_option (status service)) as [mapped_status mapped_value].
    rewrite foldl_app. cbn [foldl]. unfold scan_update_action at 1 2 3 4.
    cbn [String.eqb Ascii.eqb Bool.eqb].
    rewrite scan_updates_update_inputs_from. cbn [update_blocks].
    by apply sorted_keys_insert_ids. }
  assert (find_form_blocks values =
          {| service_name_block := Some ("service_name_" +:+ unique_suffix);
             service_status_block := Some ("service_status_" +:+ unique_suffix);
             service_date_block := Some ("service_date_" +:+ unique_suffix);
             service_summary_block := Some ("service_summary_" +:+ unique_suffix) |})
    as Hfb.
  { unfold values, find_form_blocks, create_service_detail_blocks.
    destruct (initial_status_option (status service)) as [mapped_status mapped_value].
    rewrite foldl_app. cbn [foldl]. unfold scan_form_action at 1 2 3 4.
    cbn [String.eqb Ascii.eqb Bool.eqb].
    cbn [service_name_block service_status_block service_date_block
         service_summary_block].
    by rewrite scan_form_update_inputs_from. }
  unfold validate_form. rewrite Hfb, Hkeys.
  cbn [service_name_block service_status_block service_date_block
       service_summary_block].
  change (truthy (Some ("service_name_" +:+ unique_suffix)))
    with (Some ("service_name_" +:+ unique_suffix)).
  change (truthy (Some ("service_status_" +:+ unique_suffix)))
    with (Some ("service_status_" +:+ unique_suffix)).
  change (truthy (Some ("service_date_" +:+ unique_suffix)))
    with (Some ("service_date_" +:+ unique_suffix)).
  change (truthy (Some ("service_summary_" +:+ unique_suffix)))
    with (Some ("service_summary_" +:+ unique_suffix)).
  cbv beta iota.
  assert (input_value values ("service_name_" +:+ unique_suffix) "service_name_input"
          = inr (affectedServices service)) as ->.
  { unfold values, create_service_detail_blocks, input_value.
    destruct (initial_status_option (status service)).
    cbn [app dict_get]. by rewrite String.eqb_refl. }
  assert (selected_text values ("service_status_" +:+ unique_suffix)
            "service_status_select"
          = inr (initial_status_option (status service)).1) as ->.
  { unfold values, create_service_detail_blocks, selected_text.
    destruct (initial_status_option (status service)).
    cbn [app dict_get].
    assert (String.eqb ("service_status_" +:+ unique_suffix)
                       ("service_name_" +:+ unique_suffix) = false) as -> by done.
    by rewrite String.eqb_refl. }
  assert (input_value values ("service_date_" +:+ unique_suffix) "service_date_input"
          = inr (date service)) as ->.
  { unfold values, create_service_detail_blocks, input_value.
    destruct (initial_status_option (status service)).
    cbn [app dict_get].
    assert (String.eqb ("service_date_" +:+ unique_suffix)
                       ("service_name_" +:+ unique_suffix) = false) as -> by done.
    assert (String.eqb ("service_date_" +:+ unique_suffix)
                       ("service_status_" +:+ unique_suffix) = false) as -> by done.
    by rewrite String.eqb_refl. }
  assert (input_value values ("service_summary_" +:+ unique_suffix)
            "service_summary_input"
          = inr (summary service)) as ->.
  { unfold values, create_service_detail_blocks, input_value.
    destruct (initial_status_option (status service)).
    cbn [app dict_get].
    assert (String.eqb ("service_summary_" +:+ unique_suffix)
                       ("service_name_" +:+ unique_suffix) = false) as -> by done.
    assert (String.eqb ("service_summary_" +:+ unique_suffix)
                       ("service_status_" +:+ unique_suffix) = false) as -> by done.
    assert (String.eqb ("service_summary_" +:+ unique_suffix)
                       ("service_date_" +:+ unique_suffix) = false) as -> by done.
    by rewrite String.eqb_refl. }
  cbn [mbind exn_bind]. rewrite Hdate.
  rewrite process_updates_accepted.
  2: { intros idx (i & -> & Hi)%list_elem_of_fmap.
       apply elem_of_seq in Hi.
       destruct (lookup_lt_is_Some_2 (updates service) i) as [u Hu]; [lia|].
       exists u. apply accepted_update_create_service_detail_blocks; [done|].
       eapply Forall_lookup_1; eauto. }
  rewrite Homap. cbn [app].
  destruct (updates service) as [|u us] eqn:Eu; [done|].
  destruct (affectedServices service) as [|c n] eqn:En; [done|].
  destruct (summary service) as [|c' m] eqn:Em; [done|].
  done.
Qed.

Lemma unchanged_form_round_trip_witness :
  validate_form (create_service_detail_blocks Sample.ftp_at_risk "1718000000") =
    inr (∅, Sample.ftp_at_risk).
Proof.
  apply (unchanged_form_round_trip Sample.ftp_at_risk "1718000000").
  - split_and!; try (vm_compute; reflexivity); try discriminate.
    repeat constructor; try (vm_compute; reflexivity). discriminate.
  - simpl. lia.
Defined.
End form_round_trip.
